(** * Performance monitor (src/lib/performance.ts)

    A shallow embedding of the in-process timing helper and the proofs of
    its specification.

    Modelling choices, fixed once for the whole development:

    - A JavaScript [number] holding a [performance.now()] reading is an
      integer number of milliseconds ([Z]); subtraction and comparison are
      the exact ones.  No operation of the module can produce NaN or an
      infinity from finite readings.
    - A number that a caller hands in ([startTime] of [monitorPerformance])
      is any binary64 value ([float64]), and what is computed from it is
      computed in binary64, with the library's definitions of IEEE 754
      ([SpecFloat]).
    - The [Map<string, PerformanceMetric>] keeps its entries in insertion
      order, which is what [Array.from(map.entries())] observes; it is an
      association list with unique keys.
    - The records are objects held by the [Map]; the module changes them
      only through the entry of their key ([endMeasure]), so the [Map]
      associates a key with the current value of its record.
    - [PerformanceMonitor.getInstance()] yields the one instance of the
      class; its [metrics] are a component of the [World].
    - The effects (the store of the singleton, the clock, the logger and the
      console) are threaded through an explicit [World]; a computation
      finishes with a completion, normal or abrupt ([throw]).
    - An [async] function is run to completion: whatever happens while it is
      suspended at an [await] is part of the effect of the awaited
      computation on the [World]. *)

From Stdlib Require Import ZArith List String Ascii Lia Bool Arith.
From Stdlib Require Import DecimalString Permutation Sorted.
From Stdlib Require Import QArith SpecFloat.
Close Scope Q_scope.
Import ListNotations.

Set Implicit Arguments.

Local Open Scope string_scope.

(** ** JavaScript values used by the module *)

Definition number := Z.
Bind Scope Z_scope with number.

(** ** Doubles

    A number handed in by a caller of the module is any IEEE 754 binary64
    value: [S754_finite s m e] stands for [(-1)^s * m * 2^e], and there are
    two zeros, two infinities and one NaN.  The arithmetic is the one of the
    standard (rounding to nearest, ties to even). *)

Definition float64 := spec_float.

(** The double nearest to [m * 2^e]. *)
Definition Number_of_dyadic (m e : Z) : float64 :=
  binary_normalize 53 1024 m e false.

(** The double that holds an integer: a reading of the clock, a literal of
    the program. *)
Definition Number_of_Z (z : Z) : float64 := Number_of_dyadic z 0.

(** [a - b] and [a > b]. *)
Definition Number_sub (a b : float64) : float64 := SFsub 53 1024 a b.

Definition Number_gt (a b : float64) : bool := SFltb b a.

(** The digits of a natural number. *)
Definition decimal (z : Z) : string :=
  NilZero.string_of_uint (N.to_uint (Z.to_N z)).

(** *** [Number.prototype.toFixed(2)]

    For a finite [x] below [10^21] in magnitude: "let n be an integer for
    which n / 10^2 - x is as close to zero as possible; if there are two
    such n, pick the larger n", printed with two digits after the point. *)
Definition nearest_hundredth (m : positive) (e : Z) : Z :=
  if (0 <=? e)%Z then (100 * Zpos m * 2 ^ e)%Z
  else ((200 * Zpos m + 2 ^ (- e)) / 2 ^ (1 - e))%Z.

Definition fixed2 (n : Z) : string :=
  decimal (n / 100) ++ "." ++ decimal (n / 10 mod 10) ++ decimal (n mod 10).

(** A double of magnitude [10^21] or more has a mantissa of 53 bits and an
    exponent that is not negative: it is the integer [m * 2^e]. *)
Definition at_least_1e21 (m : positive) (e : Z) : bool :=
  (0 <=? e)%Z && (10 ^ 21 <=? Zpos m * 2 ^ e)%Z.

(** From [10^21] on, [toFixed] hands over to [Number::toString]: the
    decimal [s * 10^p] with the fewest digits [s] that reads back as the
    same double and, among those, the one closest to it, written
    [d.ddde+N]. *)
Definition exponential (s p : Z) : string :=
  match decimal s with
  | String d rest =>
      String d (if String.eqb rest "" then "" else "." ++ rest)
      ++ "e+" ++ decimal (Z.of_nat (String.length rest) + p)
  | EmptyString => EmptyString
  end.

Definition same_double (a b : float64) : bool :=
  match a, b with
  | S754_finite sa ma ea, S754_finite sb mb eb =>
      Bool.eqb sa sb && Pos.eqb ma mb && Z.eqb ea eb
  | _, _ => false
  end.

Definition reads_back (x : float64) (sp : Z * Z) : bool :=
  same_double (Number_of_Z (fst sp * 10 ^ snd sp)) x.

(** The decimals of [k] digits next to the integer [X] of [N] digits, below
    and above it, and the one of them [Number::toString] takes, if any. *)
Definition candidate (x : float64) (X N k : Z) : option (Z * Z) :=
  let p := (N - k)%Z in
  let lo := (X / 10 ^ p)%Z in
  let hi := (lo + 1)%Z in
  let below := (lo, p) in
  let above := if (hi =? 10 ^ k)%Z then (1, p + k)%Z else (hi, p) in
  let d_below := (X - lo * 10 ^ p)%Z in
  let d_above := (hi * 10 ^ p - X)%Z in
  match reads_back x below, reads_back x above with
  | true, true =>
      if (d_below <? d_above)%Z then Some below
      else if (d_above <? d_below)%Z then Some above
      else if Z.even lo then Some below else Some above
  | true, false => Some below
  | false, true => Some above
  | false, false => None
  end.

Fixpoint shortest (x : float64) (X N : Z) (fuel : nat) (k : Z) : Z * Z :=
  match fuel with
  | O => (X, 0%Z)
  | S fuel' =>
      match candidate x X N k with
      | Some sp => sp
      | None => shortest x X N fuel' (k + 1)
      end
  end.

Definition Number_toString_large (m : positive) (e : Z) : string :=
  let X := (Zpos m * 2 ^ e)%Z in
  let N := Z.of_nat (String.length (decimal X)) in
  let sp := shortest (S754_finite false m e) X N 17 1 in
  exponential (fst sp) (snd sp).

Definition toFixed2 (x : float64) : string :=
  match x with
  | S754_nan => "NaN"
  | S754_infinity false => "Infinity"
  | S754_infinity true => "-Infinity"
  | S754_zero _ => "0.00"
  | S754_finite s m e =>
      (if s then "-" else "") ++
      (if at_least_1e21 m e then Number_toString_large m e
       else fixed2 (nearest_hundredth m e))
  end.

Definition dquote : string := String "034"%char EmptyString.

(** ** [Map<string, V>]: insertion-ordered, keys unique *)

Section JsMap.
Variable V : Type.

Definition Map := list (string * V).

Definition Map_size (m : Map) : nat := List.length m.

Fixpoint Map_get (key : string) (m : Map) : option V :=
  match m with
  | [] => None
  | (k, v) :: rest => if String.eqb k key then Some v else Map_get key rest
  end.

(** [set] on a present key replaces the value where the key stands, on a
    new key it appends the entry. *)
Fixpoint Map_set (key : string) (v : V) (m : Map) : Map :=
  match m with
  | [] => [(key, v)]
  | (k, x) :: rest =>
      if String.eqb k key then (k, v) :: rest
      else (k, x) :: Map_set key v rest
  end.

Fixpoint Map_delete (key : string) (m : Map) : Map :=
  match m with
  | [] => []
  | (k, x) :: rest =>
      if String.eqb k key then rest else (k, x) :: Map_delete key rest
  end.

Definition Map_clear (_ : Map) : Map := [].

Definition Map_entries (m : Map) : list (string * V) := m.

Definition Map_values (m : Map) : list V := map snd m.

Definition Map_keys (m : Map) : list string := map fst m.

(** The representation invariant of a [Map]: no key occurs twice. *)
Definition Map_wf (m : Map) : Prop := NoDup (Map_keys m).

Fixpoint Map_wfb (m : Map) : bool :=
  match m with
  | [] => true
  | (k, _) :: rest =>
      negb (existsb (String.eqb k) (Map_keys rest)) && Map_wfb rest
  end.
End JsMap.

Arguments Map_clear {V} _.

(** ** [Array.prototype.sort(compareFn)]

    The sort is stable: [a] is placed before [b] when [compareFn a b < 0],
    after it when [compareFn a b > 0], and elements that compare equal keep
    their relative order. *)

Section ArraySort.
Variable A : Type.
Variable compareFn : A -> A -> number.

Fixpoint sort_insert (x : A) (sorted : list A) : list A :=
  match sorted with
  | [] => [x]
  | y :: rest =>
      if (compareFn x y <=? 0)%Z then x :: y :: rest
      else y :: sort_insert x rest
  end.

Definition Array_sort (l : list A) : list A :=
  fold_right sort_insert [] l.
End ArraySort.

(** ** The data model *)

Record PerformanceMetric := {
  name : string;
  startTime : number;
  endTime : option number;
  duration : option number
}.

(** The assignments [metric.endTime = v] and [metric.duration = v]. *)
Definition set_endTime (metric : PerformanceMetric) (v : number) :=
  {| name := metric.(name); startTime := metric.(startTime);
     endTime := Some v; duration := metric.(duration) |}.

Definition set_duration (metric : PerformanceMetric) (v : number) :=
  {| name := metric.(name); startTime := metric.(startTime);
     endTime := metric.(endTime); duration := Some v |}.

(** The structured argument of [logger.debug]. *)
Module Payload.
Record t := { duration : number; startTime : number; endTime : number }.
End Payload.

(** What the logging sinks have received. *)
Inductive LogEntry :=
| LoggerWarn (message : string)
| LoggerDebug (message : string) (meta : Payload.t)
| ConsoleWarn (message : string)
| ConsoleLog (message : string).

(** The state the module runs in: the [metrics] of the singleton
    [PerformanceMonitor], the clock behind [performance.now()] ([clock n] is
    the value returned by the [n]-th reading, [reads] the number of readings
    made so far) and the lines written to the logger and the console. *)
Record World := {
  metrics : Map PerformanceMetric;
  clock : nat -> number;
  reads : nat;
  output : list LogEntry
}.

(** ** Computations *)

Inductive Completion (E A : Type) :=
| Normal (value : A)
| Throw (error : E).

Arguments Normal {E A} value.
Arguments Throw {E A} error.

Definition M (E A : Type) := World -> Completion E A * World.

Definition ret {E A} (a : A) : M E A := fun w => (Normal a, w).

Definition throw {E A} (e : E) : M E A := fun w => (Throw e, w).

Definition bind {E A B} (c : M E A) (k : A -> M E B) : M E B :=
  fun w =>
    match c w with
    | (Normal a, w') => k a w'
    | (Throw e, w') => (Throw e, w')
    end.

(** [try { body } catch (error) { handler error }] *)
Definition try_catch {E A} (body : M E A) (handler : E -> M E A) : M E A :=
  fun w =>
    match body w with
    | (Normal a, w') => (Normal a, w')
    | (Throw e, w') => handler e w'
    end.

Declare Scope js_scope.
Delimit Scope js_scope with js.
Notation "x <- c ;; k" := (bind c (fun x => k))
  (at level 61, c at next level, right associativity) : js_scope.
Notation "c ;; k" := (bind c (fun _ => k))
  (at level 61, right associativity) : js_scope.
Local Open Scope js_scope.

(** *** Primitive effects *)

Definition performance_now {E} : M E number :=
  fun w =>
    (Normal (clock w (reads w)),
     {| metrics := metrics w; clock := clock w; reads := S (reads w);
        output := output w |}).

Definition read_metrics {E} : M E (Map PerformanceMetric) :=
  fun w => (Normal (metrics w), w).

Definition write_metrics {E} (m : Map PerformanceMetric) : M E unit :=
  fun w =>
    (Normal tt,
     {| metrics := m; clock := clock w; reads := reads w;
        output := output w |}).

Definition emit {E} (entry : LogEntry) : M E unit :=
  fun w =>
    (Normal tt,
     {| metrics := metrics w; clock := clock w; reads := reads w;
        output := (output w ++ [entry])%list |}).

(** Modelled from the spec: the [logger] of [./logger], which is not part of
    the sources at hand.  It is "a logging sink ... accepting leveled
    messages with a message string and an optional structured payload": a
    call records one entry at its level and does nothing else. *)
Definition logger_warn {E} (message : string) : M E unit :=
  emit (LoggerWarn message).

Definition logger_debug {E} (message : string) (meta : Payload.t) : M E unit :=
  emit (LoggerDebug message meta).

Definition console_warn {E} (message : string) : M E unit :=
  emit (ConsoleWarn message).

Definition console_log {E} (message : string) : M E unit :=
  emit (ConsoleLog message).

(** ** class PerformanceMonitor *)

Definition maxMetrics : nat := 1000.

(** The comparator passed to [sort] in [clearOldMetrics]. *)
Definition byStartTime (a b : string * PerformanceMetric) : number :=
  (startTime (snd a) - startTime (snd b))%Z.

Definition clearOldMetrics {E} : M E unit :=
  ms <- read_metrics ;;
  match hd_error (Array_sort byStartTime (Map_entries ms)) with
  | Some oldestMetric => write_metrics (Map_delete (fst oldestMetric) ms)
  | None => ret tt
  end.

Definition startMeasure {E} (name : string) : M E unit :=
  ms <- read_metrics ;;
  (if (maxMetrics <=? Map_size ms)%nat then clearOldMetrics else ret tt) ;;
  now <- performance_now ;;
  ms' <- read_metrics ;;
  write_metrics
    (Map_set name
       {| name := name; startTime := now; endTime := None; duration := None |}
       ms').

Definition endMeasure {E} (name : string) : M E (option number) :=
  ms <- read_metrics ;;
  match Map_get name ms with
  | None =>
      logger_warn ("計測 " ++ dquote ++ name ++ dquote ++ " が見つかりません") ;;
      ret None
  | Some metric =>
      now <- performance_now ;;
      let metric := set_endTime metric now in
      let metric := set_duration metric (now - metric.(startTime))%Z in
      write_metrics (Map_set name metric ms) ;;
      logger_debug ("パフォーマンス計測: " ++ name)
        {| Payload.duration := (now - metric.(startTime))%Z;
           Payload.startTime := metric.(startTime);
           Payload.endTime := now |} ;;
      ret (Some (now - metric.(startTime))%Z)
  end.

Definition getMetric {E} (name : string) : M E (option PerformanceMetric) :=
  ms <- read_metrics ;;
  ret (Map_get name ms).

Definition getAllMetrics {E} : M E (list PerformanceMetric) :=
  ms <- read_metrics ;;
  ret (Map_values ms).

Definition clearMetrics {E} : M E unit :=
  ms <- read_metrics ;;
  write_metrics (Map_clear ms).

(** ** The call-wrapper (decorator)

    [measure name] replaces the method held by the descriptor with the
    [async] function below; [args] stands for the receiver and the
    arguments handed to [originalMethod.apply]. *)

Definition measure {E A Args} (name : string)
    (originalMethod : Args -> M E A) : Args -> M E A :=
  fun args =>
    startMeasure name ;;
    try_catch
      (result <- originalMethod args ;;
       endMeasure name ;;
       ret result)
      (fun error =>
       endMeasure name ;;
       throw error).

(** ** The render-wrapper (higher-order component)

    [React.createElement] belongs to React: it builds the element that
    describes [WrappedComponent] applied to [props], without running the
    component and without any access to the monitor. *)

Section React.
Variables P ComponentType ReactElement : Type.
Variable createElement : ComponentType -> P -> ReactElement.

Definition withPerformanceMonitoring {E} (WrappedComponent : ComponentType)
    (componentName : string) : P -> M E ReactElement :=
  fun props =>
    startTime <- performance_now ;;
    let result := createElement WrappedComponent props in
    endTime <- performance_now ;;
    let duration := (endTime - startTime)%Z in
    logger_debug ("コンポーネントレンダリング: " ++ componentName)
      {| Payload.duration := duration;
         Payload.startTime := startTime;
         Payload.endTime := endTime |} ;;
    ret result.
End React.

(** ** The threshold logger *)

Definition monitorPerformance {E} (functionName : string)
    (startTime : float64) : M E unit :=
  endTime <- performance_now ;;
  let executionTime := Number_sub (Number_of_Z endTime) startTime in
  (if Number_gt executionTime (Number_of_Z 100)
   then console_warn
          ("Performance warning: " ++ functionName ++ " took "
           ++ toFixed2 executionTime ++ "ms to execute")
   else ret tt) ;;
  console_log
    ("Performance: " ++ functionName ++ " - " ++ toFixed2 executionTime
     ++ "ms").

(** ** Sequences of calls on the exported monitor *)

Inductive Call :=
| CallStartMeasure (key : string)
| CallEndMeasure (key : string)
| CallGetMetric (key : string)
| CallGetAllMetrics
| CallClearMetrics.

Definition call {E} (c : Call) : M E unit :=
  match c with
  | CallStartMeasure key => startMeasure key
  | CallEndMeasure key => endMeasure key ;; ret tt
  | CallGetMetric key => getMetric key ;; ret tt
  | CallGetAllMetrics => getAllMetrics ;; ret tt
  | CallClearMetrics => clearMetrics
  end.

Fixpoint calls {E} (cs : list Call) : M E unit :=
  match cs with
  | [] => ret tt
  | c :: rest => call c ;; calls rest
  end.

(** The module as loaded: [new Map()] in the singleton, nothing logged. *)
Definition initial (clk : nat -> number) (n : nat) (out : list LogEntry) : World :=
  {| metrics := []; clock := clk; reads := n; output := out |}.

(** A record as [startMeasure] creates it. *)
Definition started (key : string) (t : number) : PerformanceMetric :=
  {| name := key; startTime := t; endTime := None; duration := None |}.

(** A field of a record is present when it is not [undefined]. *)
Definition present {A} (o : option A) : Prop := o <> None.

Definition monotone (clk : nat -> number) : Prop :=
  forall i j, (i <= j)%nat -> (clk i <= clk j)%Z.

(** * Vocabulary of the specification *)

(** The store after [clearOldMetrics], and after the capacity check that
    opens [startMeasure]. *)
Definition evict (ms : Map PerformanceMetric) : Map PerformanceMetric :=
  match hd_error (Array_sort byStartTime (Map_entries ms)) with
  | Some oldestMetric => Map_delete (fst oldestMetric) ms
  | None => ms
  end.

Definition make_room (ms : Map PerformanceMetric) : Map PerformanceMetric :=
  if (maxMetrics <=? Map_size ms)%nat then evict ms else ms.

(** The entry [clearOldMetrics] picks: the first one, in insertion order,
    among those whose [startTime] is the smallest. *)
Definition oldest_in (e : string * PerformanceMetric)
    (ms : Map PerformanceMetric) : Prop :=
  (forall x, In x ms -> (startTime (snd e) <= startTime (snd x))%Z) /\
  exists before after,
    ms = (before ++ e :: after)%list /\
    forall x, In x before -> (startTime (snd e) < startTime (snd x))%Z.

(** Sorted by [byStartTime], the entries come in the order of their
    [startTime]. *)
Definition startTime_le (a b : string * PerformanceMetric) : Prop :=
  (startTime (snd a) <= startTime (snd b))%Z.

(** A record has a [duration] exactly when it has an [endTime]. *)
Definition metric_inv (metric : PerformanceMetric) : Prop :=
  present metric.(duration) <-> present metric.(endTime).

Definition store_inv (ms : Map PerformanceMetric) : Prop :=
  forall key metric, In (key, metric) ms -> metric_inv metric.

Definition is_ConsoleLog (entry : LogEntry) : bool :=
  match entry with ConsoleLog _ => true | _ => false end.

Definition is_ConsoleWarn (entry : LogEntry) : bool :=
  match entry with ConsoleWarn _ => true | _ => false end.

(** The magnitude [m * 2^e] of a finite double, as a fraction. *)
Definition magnitude (m : positive) (e : Z) : Q :=
  if (0 <=? e)%Z then inject_Z (Zpos m * 2 ^ e)
  else Zpos m # Z.to_pos (2 ^ (- e)).

(** The decimal numeral of a natural number, as the library prints it. *)
Abbreviation numeral z :=
  (NilZero.string_of_uint (N.to_uint (Z.to_N z))) (only parsing).

(** What the language asks of [text] for it to be [x.toFixed(2)], written
    without reference to the way [toFixed2] computes it.  Below [10^21] the
    text is the hundredth [n / 100] nearest to the magnitude of [x], the
    larger one when two are as near; from [10^21] on it is a decimal
    [q * 10^p], written [d.ddde+N], that is the magnitude of [x] or that
    rounds to [x] when it is read as a double. *)
Definition is_toFixed2 (x : float64) (text : string) : Prop :=
  match x with
  | S754_nan => text = "NaN"
  | S754_infinity s => text = if s then "-Infinity" else "Infinity"
  | S754_zero _ => text = "0.00"
  | S754_finite s m e =>
      let r := magnitude m e in
      exists body,
        text = (if s then "-" else "") ++ body /\
        ((r < inject_Z (10 ^ 21))%Q ->
         exists n,
           (100 * r - (1 # 2) < inject_Z n)%Q /\
           (inject_Z n <= 100 * r + (1 # 2))%Q /\
           body =
             numeral (n / 100) ++ "." ++ numeral (n / 10 mod 10)
             ++ numeral (n mod 10)) /\
        ((inject_Z (10 ^ 21) <= r)%Q -> (0 <= e)%Z ->
         exists q p d rest,
           ((inject_Z (q * 10 ^ p) == r)%Q \/
            binary_normalize 53 1024 (q * 10 ^ p) 0 false =
              S754_finite false m e) /\
           numeral q = String d rest /\
           body =
             String d (if String.eqb rest "" then "" else "." ++ rest)
             ++ "e+" ++ numeral (Z.of_nat (String.length rest) + p))
  end.

(** A double is above 100: NaN, the zeros and minus infinity are not, plus
    infinity is, a finite double is when it is positive and its magnitude
    is more than 100. *)
Definition exceeds_100 (x : float64) : Prop :=
  match x with
  | S754_nan | S754_zero _ => False
  | S754_infinity s => s = false
  | S754_finite s m e => s = false /\ (inject_Z 100 < magnitude m e)%Q
  end.

(** * Worlds and callables the statements are tried on *)

(** A store filled to capacity, used to exercise the eviction path:
    the keys are [op0] ... [op999] and [op i] was started at time
    [(i + 7) mod 1000], so that the oldest record is neither the first nor
    the last one inserted. *)
Definition op (i : nat) : string :=
  "op" ++ NilZero.string_of_uint (Nat.to_uint i).

Definition full_store : Map PerformanceMetric :=
  map (fun i => (op i, started (op i) (Z.of_nat ((i + 7) mod 1000))))
      (seq 0 maxMetrics).

Definition full_world : World :=
  {| metrics := full_store; clock := fun n => (5000 + Z.of_nat n)%Z;
     reads := 1000; output := [] |}.

(** A callable that takes some time (two readings of the clock) and
    returns 42. *)
Definition slow42 {E} (_ : unit) : M E number :=
  performance_now ;; performance_now ;; ret 42%Z.

(** A callable that fails with ["boom"]. *)
Definition boom (_ : unit) : M string number :=
  throw "boom".

(** A callable that empties the store of the monitor and then fails with
    ["boom"]. *)
Definition clear_then_boom (_ : unit) : M string number :=
  clearMetrics ;; throw "boom".

(** * Vocabulary of the further properties *)

(** What the calls keep true of a record held under [key]: it carries its
    key as [name]; its [startTime] is a reading the clock has already
    given; and it is either open (no [endTime], no [duration]) or closed by
    a later reading, with the [duration] that separates the two. *)
Definition record_inv (w : World) (key : string)
    (metric : PerformanceMetric) : Prop :=
  metric.(name) = key /\
  exists i, (i < reads w)%nat /\ metric.(startTime) = clock w i /\
    match metric.(endTime), metric.(duration) with
    | None, None => True
    | Some e, Some d =>
        d = (e - metric.(startTime))%Z /\
        exists j, (i < j < reads w)%nat /\ e = clock w j
    | _, _ => False
    end.

Definition world_inv (w : World) : Prop :=
  forall key metric, In (key, metric) (metrics w) -> record_inv w key metric.

Definition is_CallEndMeasure (c : Call) : bool :=
  match c with CallEndMeasure _ => true | _ => false end.

(** The entries that come from the [logger], not from the console. *)
Definition is_logger_entry (entry : LogEntry) : bool :=
  match entry with
  | LoggerWarn _ | LoggerDebug _ _ => true
  | ConsoleWarn _ | ConsoleLog _ => false
  end.

(** A record as [endMeasure] leaves it at the reading [now]. *)
Definition ended (metric : PerformanceMetric) (now : number) : PerformanceMetric :=
  {| name := metric.(name); startTime := metric.(startTime);
     endTime := Some now; duration := Some (now - metric.(startTime))%Z |}.

(** A small store with two records of the same, smallest, [startTime]. *)
Definition tied_store : Map PerformanceMetric :=
  [("a", started "a" 9); ("b", started "b" 4); ("c", started "c" 4);
   ("d", started "d" 6)].

Definition tied_world : World :=
  {| metrics := tied_store; clock := fun n => (10 + Z.of_nat n)%Z;
     reads := 4; output := [] |}.

(** A full store whose first key holds the one smallest [startTime]. *)
Definition aged_store : Map PerformanceMetric :=
  map (fun i => (op i, started (op i) (Z.of_nat i))) (seq 0 maxMetrics).

Definition aged_world : World :=
  {| metrics := aged_store; clock := fun n => (5000 + Z.of_nat n)%Z;
     reads := 1000; output := [] |}.

(** * Facts about the containers *)

Section JsMapFacts.
Variable V : Type.
Implicit Types (m : Map V) (k key : string) (v : V).

Lemma Map_wfb_sound m : Map_wfb m = true -> Map_wf m.
Proof.
  unfold Map_wf. induction m as [|[k x] rest IH]; simpl; intros H.
  - constructor.
  - apply andb_true_iff in H as [Hk Hrest].
    constructor; [|now apply IH].
    intros Hin. apply negb_true_iff in Hk.
    assert (existsb (String.eqb k) (Map_keys rest) = true) as Hex
      by (apply existsb_exists; exists k; split;
          [exact Hin | apply String.eqb_refl]).
    rewrite Hex in Hk. discriminate.
Qed.

Lemma Map_get_In m key v : Map_get key m = Some v -> In (key, v) m.
Proof.
  induction m as [|[k x] rest IH]; simpl; [discriminate|].
  destruct (String.eqb_spec k key) as [->|Hne]; intros H.
  - left. congruence.
  - right. now apply IH.
Qed.

Lemma Map_get_None m key : Map_get key m = None <-> ~ In key (Map_keys m).
Proof.
  induction m as [|[k x] rest IH]; simpl; [tauto|].
  destruct (String.eqb_spec k key) as [->|Hne].
  - split; [discriminate | intros H; exfalso; apply H; now left].
  - rewrite IH. split; [intros H [Heq|Hin]; auto | intros H Hin; apply H; now right].
Qed.

Lemma In_Map_get m key v : Map_wf m -> In (key, v) m -> Map_get key m = Some v.
Proof.
  unfold Map_wf.
  induction m as [|[k x] rest IH]; simpl; intros Hwf Hin; [contradiction|].
  inversion Hwf as [|? ? Hnotin Hwf']; subst.
  destruct Hin as [Heq|Hin].
  - inversion Heq; subst. now rewrite String.eqb_refl.
  - destruct (String.eqb_spec k key) as [->|Hne]; [|now apply IH].
    exfalso. apply Hnotin. change key with (fst (key, v)).
    now apply in_map.
Qed.

Lemma Map_set_fresh m key v :
  Map_get key m = None -> Map_set key v m = (m ++ [(key, v)])%list.
Proof.
  induction m as [|[k x] rest IH]; simpl; [reflexivity|].
  destruct (String.eqb k key); [discriminate|].
  intros H. now rewrite IH.
Qed.

Lemma Map_get_set_same m key v : Map_get key (Map_set key v m) = Some v.
Proof.
  induction m as [|[k x] rest IH]; simpl.
  - now rewrite String.eqb_refl.
  - destruct (String.eqb k key) eqn:Hk; simpl; rewrite Hk; auto.
Qed.

Lemma Map_get_set_other m key k v :
  k <> key -> Map_get k (Map_set key v m) = Map_get k m.
Proof.
  intros Hne. induction m as [|[k' x] rest IH]; simpl.
  - destruct (String.eqb_spec key k); congruence.
  - destruct (String.eqb_spec k' key) as [->|Hk']; simpl.
    + destruct (String.eqb_spec key k); congruence.
    + destruct (String.eqb k' k); auto.
Qed.

Lemma Map_keys_set_present m key v x :
  Map_get key m = Some x -> Map_keys (Map_set key v m) = Map_keys m.
Proof.
  induction m as [|[k y] rest IH]; simpl; [discriminate|].
  destruct (String.eqb k key); simpl; [reflexivity|].
  intros H. now rewrite IH.
Qed.

Lemma Map_size_set_present m key v x :
  Map_get key m = Some x -> Map_size (Map_set key v m) = Map_size m.
Proof.
  intros H. unfold Map_size.
  rewrite <- (length_map fst (Map_set key v m)), <- (length_map fst m).
  fold (Map_keys (Map_set key v m)). fold (Map_keys m).
  now rewrite Map_keys_set_present with (x := x).
Qed.

Lemma Map_size_set_fresh m key v :
  Map_get key m = None -> Map_size (Map_set key v m) = S (Map_size m).
Proof.
  intros H. rewrite Map_set_fresh by assumption. unfold Map_size.
  rewrite length_app. simpl. lia.
Qed.

Lemma Map_wf_set m key v : Map_wf m -> Map_wf (Map_set key v m).
Proof.
  unfold Map_wf. intros Hwf.
  destruct (Map_get key m) as [x|] eqn:H.
  - now rewrite Map_keys_set_present with (x := x).
  - rewrite Map_set_fresh by assumption. unfold Map_keys.
    rewrite map_app. simpl.
    apply Map_get_None in H.
    rewrite <- (app_nil_r (map fst m ++ [key])), <- app_assoc. simpl.
    apply NoDup_Add with (a := key) (l := map fst m).
    + rewrite <- (app_nil_r (map fst m)) at 1. apply Add_app.
    + split; assumption.
Qed.

Lemma Map_size_delete m key v :
  Map_get key m = Some v -> Map_size m = S (Map_size (Map_delete key m)).
Proof.
  unfold Map_size.
  induction m as [|[k x] rest IH]; simpl; [discriminate|].
  destruct (String.eqb k key); simpl; [reflexivity|].
  intros H. now rewrite <- IH.
Qed.

Lemma Map_keys_delete_incl m key k :
  In k (Map_keys (Map_delete key m)) -> In k (Map_keys m).
Proof.
  induction m as [|[k' x] rest IH]; simpl; [tauto|].
  destruct (String.eqb k' key); simpl; [now right|].
  intros [H|H]; [now left | right; now apply IH].
Qed.

Lemma Map_wf_delete m key : Map_wf m -> Map_wf (Map_delete key m).
Proof.
  unfold Map_wf.
  induction m as [|[k x] rest IH]; simpl; intros Hwf; [constructor|].
  inversion Hwf as [|? ? Hnotin Hwf']; subst.
  destruct (String.eqb k key); simpl; [assumption|].
  constructor; [|now apply IH].
  intros Hin. apply Hnotin. eapply Map_keys_delete_incl; eassumption.
Qed.

Lemma Map_get_delete_same m key :
  Map_wf m -> Map_get key (Map_delete key m) = None.
Proof.
  unfold Map_wf.
  induction m as [|[k x] rest IH]; simpl; intros Hwf; [reflexivity|].
  inversion Hwf as [|? ? Hnotin Hwf']; subst.
  destruct (String.eqb_spec k key) as [->|Hne]; simpl.
  - now apply Map_get_None.
  - destruct (String.eqb_spec k key); [contradiction|]. now apply IH.
Qed.

Lemma Map_get_delete_other m key k :
  k <> key -> Map_get k (Map_delete key m) = Map_get k m.
Proof.
  intros Hne. induction m as [|[k' x] rest IH]; simpl; [reflexivity|].
  destruct (String.eqb_spec k' key) as [->|Hk']; simpl.
  - destruct (String.eqb_spec key k); congruence.
  - now rewrite IH.
Qed.
End JsMapFacts.

Section ArraySortFacts.
Variable A : Type.
Variable compareFn : A -> A -> number.

Lemma hd_sort_insert x s :
  hd_error (sort_insert compareFn x s) =
  Some match hd_error s with
       | None => x
       | Some y => if (compareFn x y <=? 0)%Z then x else y
       end.
Proof.
  destruct s as [|y rest]; simpl; [reflexivity|].
  now destruct (compareFn x y <=? 0)%Z.
Qed.

Lemma Array_sort_cons x l :
  Array_sort compareFn (x :: l) =
  sort_insert compareFn x (Array_sort compareFn l).
Proof. reflexivity. Qed.

Lemma length_sort_insert x s :
  List.length (sort_insert compareFn x s) = S (List.length s).
Proof.
  induction s as [|y rest IH]; simpl; [reflexivity|].
  destruct (compareFn x y <=? 0)%Z; simpl; auto.
Qed.

Lemma length_Array_sort l :
  List.length (Array_sort compareFn l) = List.length l.
Proof.
  induction l as [|x l IH]; [reflexivity|].
  rewrite Array_sort_cons, length_sort_insert. simpl. now rewrite IH.
Qed.
Lemma sort_insert_perm x s : Permutation (x :: s) (sort_insert compareFn x s).
Proof.
  induction s as [|y rest IH]; simpl; [apply Permutation_refl|].
  destruct (compareFn x y <=? 0)%Z; [apply Permutation_refl|].
  eapply perm_trans; [apply perm_swap|]. now apply perm_skip.
Qed.

(** The sort rearranges the array, it neither drops nor adds an element. *)
Lemma Array_sort_perm l : Permutation l (Array_sort compareFn l).
Proof.
  induction l as [|x l IH]; [apply perm_nil|].
  rewrite Array_sort_cons.
  eapply perm_trans; [apply perm_skip, IH | apply sort_insert_perm].
Qed.
End ArraySortFacts.

Lemma sort_insert_sorted x s :
  Sorted startTime_le s -> Sorted startTime_le (sort_insert byStartTime x s).
Proof.
  induction s as [|y rest IH]; simpl; intros Hs.
  - repeat constructor.
  - inversion Hs as [|? ? Hrest Hhd]; subst. unfold byStartTime at 1.
    destruct (Z.leb_spec (startTime (snd x) - startTime (snd y)) 0) as [Hle|Hgt].
    + constructor; [exact Hs|]. constructor. unfold startTime_le. lia.
    + constructor; [now apply IH|].
      destruct rest as [|z rest']; simpl.
      * constructor. unfold startTime_le. lia.
      * inversion Hhd; subst. unfold byStartTime.
        destruct (startTime (snd x) - startTime (snd z) <=? 0)%Z;
          constructor; [unfold startTime_le; lia | assumption].
Qed.

Lemma Array_sort_sorted l : Sorted startTime_le (Array_sort byStartTime l).
Proof.
  induction l as [|x l IH]; [constructor|].
  rewrite Array_sort_cons. now apply sort_insert_sorted.
Qed.

Lemma oldest_in_In e ms : oldest_in e ms -> In e ms.
Proof.
  intros [_ (before & after & -> & _)]. apply in_elt.
Qed.

Lemma sort_head_None (ms : Map PerformanceMetric) :
  hd_error (Array_sort byStartTime (Map_entries ms)) = None -> ms = [].
Proof.
  unfold Map_entries. destruct ms as [|x l]; [reflexivity|].
  rewrite Array_sort_cons, hd_sort_insert. discriminate.
Qed.

Lemma sort_head_oldest (ms : Map PerformanceMetric) e :
  hd_error (Array_sort byStartTime (Map_entries ms)) = Some e ->
  oldest_in e ms.
Proof.
  unfold Map_entries. revert e.
  induction ms as [|a l IH]; intros e; [discriminate|].
  rewrite Array_sort_cons, hd_sort_insert.
  destruct (hd_error (Array_sort byStartTime l)) as [y|] eqn:Hy.
  - specialize (IH y eq_refl) as [Hmin (before & after & Hl & Hbefore)].
    unfold byStartTime at 1.
    destruct (Z.leb_spec (startTime (snd a) - startTime (snd y)) 0) as [Hle|Hgt];
      intros [= <-]; split.
    + intros x [<-|Hx]; [lia|]. specialize (Hmin x Hx). lia.
    + exists [], l. split; [reflexivity|]. intros x [].
    + intros x [<-|Hx]; [lia|]. now apply Hmin.
    + exists (a :: before), after. split; [now rewrite Hl|].
      intros x [<-|Hx]; [lia|]. now apply Hbefore.
  - apply sort_head_None in Hy. subst l. intros [= <-]. split.
    + intros x [<-|[]]. lia.
    + exists [], []. split; [reflexivity|]. intros x [].
Qed.

(** * Facts about the monitor *)

Section MonitorFacts.
Variable E : Type.
Implicit Types (w : World) (key : string).

Lemma clearOldMetrics_run w :
  clearOldMetrics (E := E) w =
  (Normal tt,
   {| metrics := evict (metrics w); clock := clock w; reads := reads w;
      output := output w |}).
Proof.
  unfold clearOldMetrics, evict, bind, read_metrics.
  destruct (hd_error (Array_sort byStartTime (Map_entries (metrics w))));
    [reflexivity|].
  now destruct w.
Qed.

Lemma startMeasure_run key w :
  startMeasure (E := E) key w =
  (Normal tt,
   {| metrics :=
        Map_set key (started key (clock w (reads w))) (make_room (metrics w));
      clock := clock w; reads := S (reads w); output := output w |}).
Proof.
  unfold startMeasure, make_room, bind at 1 2, read_metrics at 1.
  destruct (maxMetrics <=? Map_size (metrics w))%nat.
  - rewrite clearOldMetrics_run. reflexivity.
  - reflexivity.
Qed.

Lemma endMeasure_missing key w :
  Map_get key (metrics w) = None ->
  endMeasure (E := E) key w =
  (Normal None,
   {| metrics := metrics w; clock := clock w; reads := reads w;
      output :=
        (output w ++
         [LoggerWarn ("計測 " ++ dquote ++ key ++ dquote
                      ++ " が見つかりません")])%list |}).
Proof.
  intros H. unfold endMeasure, bind at 1, read_metrics. now rewrite H.
Qed.

Lemma endMeasure_tracked key w metric :
  Map_get key (metrics w) = Some metric ->
  let now := clock w (reads w) in
  let elapsed := (now - metric.(startTime))%Z in
  endMeasure (E := E) key w =
  (Normal (Some elapsed),
   {| metrics :=
        Map_set key
          {| name := metric.(name); startTime := metric.(startTime);
             endTime := Some now; duration := Some elapsed |}
          (metrics w);
      clock := clock w; reads := S (reads w);
      output :=
        (output w ++
         [LoggerDebug ("パフォーマンス計測: " ++ key)
            {| Payload.duration := elapsed;
               Payload.startTime := metric.(startTime);
               Payload.endTime := now |}])%list |}).
Proof.
  intros H. unfold endMeasure, bind at 1, read_metrics. now rewrite H.
Qed.
End MonitorFacts.

(** ** Invariants of the store *)

Section StoreInvariants.
Variable V : Type.
Implicit Types (m : Map V) (e : string * V).

Lemma In_Map_set m key v e :
  In e (Map_set key v m) -> e = (key, v) \/ In e m.
Proof.
  induction m as [|[k x] rest IH]; simpl.
  - intros [<-|[]]. now left.
  - destruct (String.eqb_spec k key) as [->|Hne]; simpl.
    + intros [<-|H]; auto.
    + intros [<-|H]; auto. destruct (IH H); auto.
Qed.

Lemma In_Map_delete m key e : In e (Map_delete key m) -> In e m.
Proof.
  induction m as [|[k x] rest IH]; simpl; [tauto|].
  destruct (String.eqb k key); simpl; [now right|].
  intros [<-|H]; auto.
Qed.
End StoreInvariants.

Lemma In_make_room ms e : In e (make_room ms) -> In e ms.
Proof.
  unfold make_room, evict.
  destruct (maxMetrics <=? Map_size ms)%nat; [|trivial].
  destruct (hd_error (Array_sort byStartTime (Map_entries ms))); [|trivial].
  apply In_Map_delete.
Qed.

Lemma Map_wf_make_room ms : Map_wf ms -> Map_wf (make_room ms).
Proof.
  unfold make_room, evict. intros Hwf.
  destruct (maxMetrics <=? Map_size ms)%nat; [|trivial].
  destruct (hd_error (Array_sort byStartTime (Map_entries ms))); [|trivial].
  now apply Map_wf_delete.
Qed.

Section CallInvariants.
Variable E : Type.

(** What a call leaves in the store, whatever the clock and the sinks. *)
Lemma call_metrics (c : Call) (w : World) :
  let ms := metrics w in
  let ms' := metrics (snd (call (E := E) c w)) in
  match c with
  | CallStartMeasure key =>
      ms' = Map_set key (started key (clock w (reads w))) (make_room ms)
  | CallEndMeasure key =>
      match Map_get key ms with
      | None => ms' = ms
      | Some metric =>
          ms' = Map_set key
                  {| name := metric.(name); startTime := metric.(startTime);
                     endTime := Some (clock w (reads w));
                     duration :=
                       Some (clock w (reads w) - metric.(startTime))%Z |}
                  ms
      end
  | CallGetMetric _ | CallGetAllMetrics => ms' = ms
  | CallClearMetrics => ms' = []
  end.
Proof.
  destruct c as [key|key|key| |]; cbn [call]; cbv zeta.
  - now rewrite startMeasure_run.
  - destruct (Map_get key (metrics w)) as [metric|] eqn:Hget; unfold bind.
    + now rewrite (endMeasure_tracked E _ _ Hget).
    + now rewrite (endMeasure_missing E _ _ Hget).
  - reflexivity.
  - reflexivity.
  - reflexivity.
Qed.

Lemma call_store_inv (c : Call) (w : World) :
  store_inv (metrics w) -> store_inv (metrics (snd (call (E := E) c w))).
Proof.
  intros Hinv. pose proof (call_metrics c w) as Hc. cbv zeta in Hc.
  destruct c as [key|key|key| |].
  - rewrite Hc. intros k metric Hin.
    apply In_Map_set in Hin as [[= _ ->]|Hin].
    + unfold metric_inv, present, started. cbn. tauto.
    + apply In_make_room in Hin. eapply Hinv; eassumption.
  - destruct (Map_get key (metrics w)) as [old|]; rewrite Hc; [|exact Hinv].
    intros k metric Hin.
    apply In_Map_set in Hin as [[= _ ->]|Hin].
    + unfold metric_inv, present. cbn. split; discriminate.
    + eapply Hinv; eassumption.
  - now rewrite Hc.
  - now rewrite Hc.
  - rewrite Hc. intros k metric [].
Qed.

Lemma call_wf (c : Call) (w : World) :
  Map_wf (metrics w) -> Map_wf (metrics (snd (call (E := E) c w))).
Proof.
  intros Hwf. pose proof (call_metrics c w) as Hc. cbv zeta in Hc.
  destruct c as [key|key|key| |].
  - rewrite Hc. now apply Map_wf_set, Map_wf_make_room.
  - destruct (Map_get key (metrics w)) as [old|]; rewrite Hc; [|exact Hwf].
    now apply Map_wf_set.
  - now rewrite Hc.
  - now rewrite Hc.
  - rewrite Hc. constructor.
Qed.

(** An invariant of every call is an invariant of every sequence. *)
Lemma calls_invariant (I : Map PerformanceMetric -> Prop) :
  (forall c w, I (metrics w) -> I (metrics (snd (call (E := E) c w)))) ->
  forall cs w, I (metrics w) -> I (metrics (snd (calls (E := E) cs w))).
Proof.
  intros Hstep cs. induction cs as [|c rest IH]; intros w Hw; [exact Hw|].
  cbn [calls]. unfold bind. specialize (Hstep c w Hw).
  destruct (call c w) as [[[]|e] w1]; cbn [snd] in *; auto.
Qed.

(** Every store the calls can build is a well-formed [Map]. *)
Lemma calls_wf clk n out cs :
  Map_wf (metrics (snd (calls (E := E) cs (initial clk n out)))).
Proof.
  apply calls_invariant; [exact call_wf | constructor].
Qed.

(** No call of the monitor completes abruptly. *)
Lemma call_normal (c : Call) (w : World) : fst (call (E := E) c w) = Normal tt.
Proof.
  destruct c as [key|key|key| |]; cbn [call].
  - now rewrite startMeasure_run.
  - destruct (Map_get key (metrics w)) as [metric|] eqn:Hget; unfold bind.
    + now rewrite (endMeasure_tracked E _ _ Hget).
    + now rewrite (endMeasure_missing E _ _ Hget).
  - reflexivity.
  - reflexivity.
  - reflexivity.
Qed.

Lemma calls_normal cs (w : World) : fst (calls (E := E) cs w) = Normal tt.
Proof.
  revert w. induction cs as [|c rest IH]; intros w; [reflexivity|].
  cbn [calls]. unfold bind. pose proof (call_normal c w) as Hc.
  destruct (call c w) as [[[]|e] w1]; cbn [fst] in Hc; [apply IH|discriminate].
Qed.
End CallInvariants.

(** ** Facts about the call-wrapper *)

Section Measure.
Variables E A Args : Type.
Variable originalMethod : Args -> M E A.

(** A call of [endMeasure] completes normally and is heard exactly once by
    the logger: two calls would leave two lines. *)
Lemma endMeasure_once (key : string) (w : World) :
  exists r entry,
    fst (endMeasure (E := E) key w) = Normal r /\
    output (snd (endMeasure (E := E) key w)) = (output w ++ [entry])%list.
Proof.
  destruct (Map_get key (metrics w)) as [metric|] eqn:Hget.
  - rewrite (endMeasure_tracked E _ _ Hget). cbn [fst snd output]. eauto.
  - rewrite (endMeasure_missing E _ _ Hget). cbn [fst snd output]. eauto.
Qed.

Lemma measure_run (key : string) (args : Args) (w : World) :
  measure key originalMethod args w =
  let (outcome, w2) := originalMethod args (snd (startMeasure (E := E) key w)) in
  (outcome, snd (endMeasure (E := E) key w2)).
Proof.
  unfold measure, bind at 1. rewrite startMeasure_run. cbn [snd].
  unfold try_catch, bind at 1.
  destruct (originalMethod args _) as [[result|error] w2].
  - unfold bind, ret.
    destruct (endMeasure_once key w2) as (r & entry & Hr & _).
    destruct (endMeasure key w2) as [c w3]. cbn [fst] in Hr. now subst c.
  - unfold bind, throw.
    destruct (endMeasure_once key w2) as (r & entry & Hr & _).
    destruct (endMeasure key w2) as [c w3]. cbn [fst] in Hr. now subst c.
Qed.
End Measure.

(** ** Facts about doubles and [toFixed] *)

Lemma same_double_eq a b : same_double a b = true -> a = b.
Proof.
  destruct a as [| | |sa ma ea], b as [| | |sb mb eb]; try discriminate.
  cbn. intros H.
  apply andb_true_iff in H as [H He]. apply andb_true_iff in H as [Hs Hm].
  apply Bool.eqb_prop in Hs. apply Pos.eqb_eq in Hm. apply Z.eqb_eq in He.
  now subst.
Qed.

Lemma candidate_reads_back x X N k sp :
  candidate x X N k = Some sp -> reads_back x sp = true.
Proof.
  unfold candidate.
  destruct (reads_back x (X / 10 ^ (N - k), N - k)%Z) eqn:Hlo;
  destruct (reads_back x
              (if (X / 10 ^ (N - k) + 1 =? 10 ^ k)%Z
               then (1, N - k + k)%Z
               else (X / 10 ^ (N - k) + 1, N - k)%Z)) eqn:Hhi;
  repeat match goal with |- context [if ?c then _ else _] => destruct c end;
  intros [= <-]; assumption.
Qed.

Lemma shortest_denotes x X N fuel k :
  let sp := shortest x X N fuel k in
  (fst sp * 10 ^ snd sp = X)%Z \/ reads_back x sp = true.
Proof.
  revert k. induction fuel as [|fuel IH]; intros k; cbn [shortest].
  - left. cbn. lia.
  - destruct (candidate x X N k) as [sp|] eqn:Hc.
    + right. eapply candidate_reads_back; eassumption.
    + apply IH.
Qed.

Lemma decimal_nonempty z : exists d rest, decimal z = String d rest.
Proof.
  unfold decimal, NilZero.string_of_uint.
  destruct (N.to_uint (Z.to_N z)); cbn; eauto.
Qed.

Lemma nearest_hundredth_spec m e :
  (100 * magnitude m e - (1 # 2) < inject_Z (nearest_hundredth m e))%Q /\
  (inject_Z (nearest_hundredth m e) <= 100 * magnitude m e + (1 # 2))%Q.
Proof.
  unfold magnitude, nearest_hundredth.
  destruct (Z.leb_spec 0 e) as [He|He].
  - set (X := (Zpos m * 2 ^ e)%Z).
    replace (100 * Zpos m * 2 ^ e)%Z with (100 * X)%Z by (subst X; ring).
    unfold Qlt, Qle, Qminus, Qplus, Qopp, Qmult, inject_Z. cbn [Qnum Qden].
    split; lia.
  - set (D := (2 ^ (- e))%Z).
    assert (0 < D)%Z as HD by (apply Z.pow_pos_nonneg; lia).
    assert (2 ^ (1 - e) = 2 * D)%Z as ->
      by (subst D; replace (1 - e)%Z with (Z.succ (- e)) by lia;
          apply Z.pow_succ_r; lia).
    pose proof (Z.mul_div_le (200 * Zpos m + D) (2 * D)) as Hlo.
    pose proof (Z.mul_succ_div_gt (200 * Zpos m + D) (2 * D)) as Hhi.
    set (n := ((200 * Zpos m + D) / (2 * D))%Z) in *.
    unfold Qlt, Qle, Qminus, Qplus, Qopp, Qmult, inject_Z. cbn [Qnum Qden].
    rewrite !Pos2Z.inj_mul, !Z2Pos.id by exact HD.
    split; nia.
Qed.

Lemma toFixed2_correct x : is_toFixed2 x (toFixed2 x).
Proof.
  destruct x as [s|s| |s m e]; cbn [is_toFixed2 toFixed2].
  - reflexivity.
  - now destruct s.
  - reflexivity.
  - cbv zeta. eexists. split; [reflexivity|].
    unfold at_least_1e21, magnitude.
    destruct (Z.leb_spec 0 e) as [He|He]; cbn [andb].
    + destruct (Z.leb_spec (10 ^ 21) (Zpos m * 2 ^ e)) as [Hbig|Hsmall].
      * split.
        -- intros Habs. rewrite <- Zlt_Qlt in Habs. lia.
        -- intros _ _. unfold Number_toString_large.
           set (X := (Zpos m * 2 ^ e)%Z).
           set (sp := shortest _ _ _ _ _).
           pose proof (shortest_denotes (S754_finite false m e) X
                         (Z.of_nat (String.length (decimal X))) 17 1) as Hsp.
           fold sp in Hsp. cbv zeta in Hsp.
           destruct (decimal_nonempty (fst sp)) as (d & rest & Hd).
           exists (fst sp), (snd sp), d, rest.
           split; [|split].
           ++ destruct Hsp as [Hexact|Hback].
              ** left. now rewrite Hexact.
              ** right. now apply same_double_eq.
           ++ exact Hd.
           ++ unfold exponential. now rewrite Hd.
      * split.
        -- intros _. exists (nearest_hundredth m e).
           pose proof (nearest_hundredth_spec m e) as [Hlo Hhi].
           unfold magnitude in Hlo, Hhi.
           destruct (Z.leb_spec 0 e); [|lia]. repeat split; assumption.
        -- intros Habs. rewrite <- Zle_Qle in Habs. lia.
    + split.
      * intros _. exists (nearest_hundredth m e).
        pose proof (nearest_hundredth_spec m e) as [Hlo Hhi].
        unfold magnitude in Hlo, Hhi.
        destruct (Z.leb_spec 0 e); [lia|]. repeat split; assumption.
      * intros _ Habs. lia.
Qed.

Lemma digits2_pos_bounds m :
  (2 ^ (Zpos (digits2_pos m) - 1) <= Zpos m < 2 ^ Zpos (digits2_pos m))%Z.
Proof.
  induction m as [p IH|p IH|]; cbn [digits2_pos].
  - rewrite Pos2Z.inj_succ, Z.pow_succ_r by lia.
    replace (Z.succ (Zpos (digits2_pos p)) - 1)%Z
      with (Z.succ (Zpos (digits2_pos p) - 1)) by lia.
    rewrite Z.pow_succ_r by lia. lia.
  - rewrite Pos2Z.inj_succ, Z.pow_succ_r by lia.
    replace (Z.succ (Zpos (digits2_pos p)) - 1)%Z
      with (Z.succ (Zpos (digits2_pos p) - 1)) by lia.
    rewrite Z.pow_succ_r by lia. lia.
  - cbn. lia.
Qed.

Lemma hundred_double :
  binary_normalize 53 1024 100 0 false =
  S754_finite false 7036874417766400 (-46).
Proof. vm_compute. reflexivity. Qed.

Lemma slow_iff_exceeds_100 (x : float64) :
  valid_binary 53 1024 x = true ->
  SFltb (binary_normalize 53 1024 100 0 false) x = true <-> exceeds_100 x.
Proof.
  rewrite hundred_double. intros Hvalid.
  destruct x as [s|s| |s m e]; cbn [exceeds_100].
  - cbn. split; [discriminate | tauto].
  - destruct s; cbn; split; auto; discriminate.
  - cbn. split; [discriminate | tauto].
  - destruct s.
    { cbn. split; [discriminate | intros [Habs _]; discriminate]. }
    cbn [valid_binary] in Hvalid. unfold bounded, canonical_mantissa in Hvalid.
    apply andb_true_iff in Hvalid as [Hcanon _].
    apply Z.eqb_eq in Hcanon. unfold fexp, emin in Hcanon.
    pose proof (digits2_pos_bounds m) as [Hlow Hhigh].
    set (d := Zpos (digits2_pos m)) in *.
    assert (d <= 53)%Z as Hd by lia.
    assert (Zpos m < 2 ^ 53)%Z as Hm.
    { eapply Z.lt_le_trans; [exact Hhigh|]. apply Z.pow_le_mono_r; lia. }
    change (2 ^ 53)%Z with 9007199254740992%Z in Hm.
    unfold SFltb, SFcompare, magnitude.
    destruct (Z.compare_spec (-46) e) as [Heq|Hlt|Hgt].
    + subst e. cbn [Z.leb Z.compare]. change (- -46)%Z with 46%Z.
      rewrite Pos.compare_cont_spec.
      unfold Qlt, inject_Z. cbn [Qnum Qden].
      rewrite Z2Pos.id by (apply Z.pow_pos_nonneg; lia).
      change (2 ^ 46)%Z with 70368744177664%Z.
      destruct (Pos.compare_spec 7036874417766400 m) as [Hc|Hc|Hc];
        cbn [Pos.switch_Eq].
      * subst m. split; [discriminate | intros [_ H]; exfalso; lia].
      * apply Pos2Z.pos_lt_pos in Hc.
        split; [intros _; split; [reflexivity|lia] | reflexivity].
      * apply Pos2Z.pos_lt_pos in Hc.
        split; [discriminate | intros [_ H]; exfalso; lia].
    + assert (d = 53)%Z as Hd53 by lia.
      rewrite Hd53 in Hlow.
      change (2 ^ (53 - 1))%Z with 4503599627370496%Z in Hlow.
      split; [intros _; split; [reflexivity|] | reflexivity].
      destruct (Z.leb_spec 0 e) as [He|He].
      * rewrite <- Zlt_Qlt.
        assert (0 < 2 ^ e)%Z by (apply Z.pow_pos_nonneg; lia).
        nia.
      * unfold Qlt, inject_Z. cbn [Qnum Qden].
        rewrite Z2Pos.id by (apply Z.pow_pos_nonneg; lia).
        assert (2 ^ (- e) <= 2 ^ 45)%Z as Hpow
          by (apply Z.pow_le_mono_r; lia).
        change (2 ^ 45)%Z with 35184372088832%Z in Hpow. lia.
    + split; [discriminate|]. intros [_ Habs]. exfalso.
      destruct (Z.leb_spec 0 e) as [He|He]; [lia|].
      unfold Qlt, inject_Z in Habs. cbn [Qnum Qden] in Habs.
      rewrite Z2Pos.id in Habs by (apply Z.pow_pos_nonneg; lia).
      assert (2 ^ 47 <= 2 ^ (- e))%Z as Hpow
        by (apply Z.pow_le_mono_r; lia).
      change (2 ^ 47)%Z with 140737488355328%Z in Hpow. lia.
Qed.

(** * The specification, claim by claim *)

(** C1. When the store holds 1000 records and [key] is not one of its keys,
    [startMeasure key] removes exactly one of the records held, one whose
    [startTime] is the smallest of all, and then inserts the record of
    [key]; every other record stays, and the store holds at most 1000
    records afterwards (exactly 1000).  [Map_wf] is the uniqueness of the
    keys of a [Map], which every store built by the calls has. *)
Theorem startMeasure_at_capacity_fresh_key (E : Type) (w : World) (key : string) :
  Map_wf (metrics w) ->
  Map_size (metrics w) = 1000%nat ->
  Map_get key (metrics w) = None ->
  let w' := snd (startMeasure (E := E) key w) in
  exists victim old,
    Map_get victim (metrics w) = Some old /\
    (forall k m, Map_get k (metrics w) = Some m ->
                 (startTime old <= startTime m)%Z) /\
    Map_size (Map_delete victim (metrics w)) = 999%nat /\
    metrics w' =
      (Map_delete victim (metrics w)
       ++ [(key, started key (clock w (reads w)))])%list /\
    Map_get victim (metrics w') = None /\
    (forall k, k <> victim -> k <> key ->
               Map_get k (metrics w') = Map_get k (metrics w)) /\
    (Map_size (metrics w') <= 1000)%nat /\
    Map_size (metrics w') = 1000%nat.
Proof.
  intros Hwf Hsize Hfresh w'. subst w'.
  rewrite startMeasure_run. cbn [snd metrics].
  unfold make_room. rewrite Hsize.
  change (maxMetrics <=? 1000)%nat with true. cbv iota.
  unfold evict.
  destruct (hd_error (Array_sort byStartTime (Map_entries (metrics w))))
    as [[victim old]|] eqn:Hhd.
  2:{ apply sort_head_None in Hhd. rewrite Hhd in Hsize. discriminate. }
  apply sort_head_oldest in Hhd. destruct (Hhd) as [Hmin _].
  apply oldest_in_In in Hhd. cbn [fst snd] in *.
  assert (Map_get victim (metrics w) = Some old) as Hvictim
    by now apply In_Map_get.
  assert (victim <> key) as Hne by congruence.
  assert (Map_get key (Map_delete victim (metrics w)) = None) as Hfresh'
    by (rewrite Map_get_delete_other; auto).
  assert (Map_size (Map_delete victim (metrics w)) = 999%nat) as Hsize'
    by (pose proof (Map_size_delete _ _ Hvictim); lia).
  exists victim, old. repeat split.
  - exact Hvictim.
  - intros k m Hk. apply (Hmin (k, m)). now apply Map_get_In.
  - exact Hsize'.
  - now apply Map_set_fresh.
  - rewrite Map_get_set_other by exact Hne. now apply Map_get_delete_same.
  - intros k Hk1 Hk2.
    rewrite Map_get_set_other by exact Hk2. now apply Map_get_delete_other.
  - rewrite Map_size_set_fresh by exact Hfresh'. lia.
  - rewrite Map_size_set_fresh by exact Hfresh'. lia.
Qed.

Lemma startMeasure_at_capacity_fresh_key_witness :
  exists victim,
    Map_get victim (metrics (snd (startMeasure (E := unit) "op1000" full_world)))
      = None /\
    Map_size (metrics (snd (startMeasure (E := unit) "op1000" full_world)))
      = 1000%nat.
Proof.
  destruct (@startMeasure_at_capacity_fresh_key unit full_world "op1000")
    as (victim & old & _ & _ & _ & _ & Hgone & _ & _ & Hsize).
  - apply Map_wfb_sound. vm_compute. reflexivity.
  - vm_compute. reflexivity.
  - vm_compute. reflexivity.
  - exists victim. split; [exact Hgone | exact Hsize].
Defined.

(** C2, as the code has it.  When the wrapped callable, run in the world
    [startMeasure key] has left, fails with [error] in a world [w2], the
    wrapper fails with that same [error], and its final world is the one a
    single [endMeasure key] makes of [w2], so the timing is closed before
    the failure is seen by the caller and the logger has heard one line
    more.  Afterwards [getMetric key] has its [endTime] set provided the
    record of [key] was still in the store when the callable failed; if the
    callable (or what ran while it was awaited) has removed it,
    [endMeasure key] only reports the miss and [getMetric key] is
    [undefined]. *)
Theorem measure_failure (E A Args : Type) (key : string)
    (originalMethod : Args -> M E A) (args : Args) (w w2 : World) (error : E) :
  originalMethod args (snd (startMeasure (E := E) key w)) = (Throw error, w2) ->
  let run := measure key originalMethod args w in
  fst run = Throw error /\
  snd run = snd (endMeasure (E := E) key w2) /\
  (exists entry, output (snd run) = (output w2 ++ [entry])%list) /\
  (forall metric, Map_get key (metrics w2) = Some metric ->
     exists metric',
       fst (getMetric (E := E) key (snd run)) = Normal (Some metric') /\
       metric'.(endTime) = Some (clock w2 (reads w2))) /\
  (Map_get key (metrics w2) = None ->
     fst (getMetric (E := E) key (snd run)) = Normal None).
Proof.
  intros Hcall run. subst run. rewrite measure_run, Hcall. cbn [fst snd].
  repeat split.
  - destruct (endMeasure_once E key w2) as (r & entry & _ & Hout). eauto.
  - intros metric Hget. rewrite (endMeasure_tracked E _ _ Hget).
    unfold getMetric, bind, read_metrics, ret. cbn [fst snd metrics].
    rewrite Map_get_set_same. eauto.
  - intros Hget. rewrite (endMeasure_missing E _ _ Hget).
    unfold getMetric, bind, read_metrics, ret. cbn [fst snd metrics].
    now rewrite Hget.
Qed.

Lemma measure_failure_witness :
  fst (measure "op" boom tt (initial (fun n => (10 * Z.of_nat n)%Z) 0 []))
    = Throw "boom" /\
  exists metric',
    fst (getMetric (E := string) "op"
           (snd (measure "op" boom tt
                   (initial (fun n => (10 * Z.of_nat n)%Z) 0 []))))
      = Normal (Some metric') /\
    metric'.(endTime) = Some 10%Z.
Proof.
  destruct (@measure_failure string number unit "op" boom tt
              (initial (fun n => (10 * Z.of_nat n)%Z) 0 [])
              (snd (startMeasure (E := string) "op"
                      (initial (fun n => (10 * Z.of_nat n)%Z) 0 [])))
              "boom" eq_refl)
    as (Hthrow & _ & _ & Hset & _).
  split; [exact Hthrow|].
  apply (Hset (started "op" 0)). reflexivity.
Defined.

(** C2, as it is stated, fails on this callable: the wrapper re-raises
    ["boom"], [endMeasure "op"] has been called (the logger has its
    warning), and yet [getMetric "op"] is [undefined] afterwards, so it has
    no [endTime]. *)
Lemma measure_failure_without_endTime :
  let run := measure "op" clear_then_boom tt
               (initial (fun n => (10 * Z.of_nat n)%Z) 0 []) in
  fst run = Throw "boom" /\
  output (snd run) =
    [LoggerWarn ("計測 " ++ dquote ++ "op" ++ dquote ++ " が見つかりません")] /\
  fst (getMetric (E := string) "op" (snd run)) = Normal None /\
  ~ (exists metric t,
       fst (getMetric (E := string) "op" (snd run)) = Normal (Some metric) /\
       metric.(endTime) = Some t).
Proof.
  cbv zeta. repeat split.
  intros (metric & t & Hget & _). discriminate Hget.
Qed.

(** C3. [endMeasure key] on a key the store does not track returns
    [undefined] as a normal completion, hands one line to [logger.warn] and
    leaves the store, hence its size, as it was. *)
Theorem endMeasure_untracked (E : Type) (w : World) (key : string) :
  Map_get key (metrics w) = None ->
  let run := endMeasure (E := E) key w in
  fst run = Normal None /\
  metrics (snd run) = metrics w /\
  Map_size (metrics (snd run)) = Map_size (metrics w) /\
  output (snd run) =
    (output w ++
     [LoggerWarn ("計測 " ++ dquote ++ key ++ dquote ++ " が見つかりません")])%list.
Proof.
  intros H run. subst run. rewrite endMeasure_missing by exact H.
  repeat split.
Qed.

Lemma endMeasure_untracked_witness :
  let run := endMeasure (E := unit) "render" (initial (fun n => Z.of_nat n) 0 []) in
  fst run = Normal None /\
  metrics (snd run) = [] /\
  Map_size (metrics (snd run)) = 0%nat /\
  output (snd run) =
    [LoggerWarn ("計測 " ++ dquote ++ "render" ++ dquote ++ " が見つかりません")].
Proof.
  apply (@endMeasure_untracked unit (initial (fun n => Z.of_nat n) 0 []) "render").
  reflexivity.
Defined.



Example start_then_end_once :
  (startMeasure (E := unit) "load" ;; endMeasure "load")
    (initial (fun n => (3 * Z.of_nat n)%Z) 4 []) =
  (Normal (Some 3%Z),
   {| metrics :=
        [("load", {| name := "load"; startTime := 12; endTime := Some 15%Z;
                     duration := Some 3%Z |})];
      clock := fun n => (3 * Z.of_nat n)%Z; reads := 6;
      output :=
        [LoggerDebug ("パフォーマンス計測: " ++ "load")
           {| Payload.duration := 3; Payload.startTime := 12;
              Payload.endTime := 15 |}] |}).
Proof. reflexivity. Qed.

(** C5. In every store built from the empty one by calls of [startMeasure],
    [endMeasure], [getMetric], [getAllMetrics] and [clearMetrics], in any
    number and order, each record has a [duration] if and only if it has an
    [endTime]. *)
Theorem duration_present_iff_endTime_present (E : Type)
    (clk : nat -> number) (n : nat) (out : list LogEntry) (cs : list Call)
    (key : string) (metric : PerformanceMetric) :
  In (key, metric)
     (Map_entries (metrics (snd (calls (E := E) cs (initial clk n out))))) ->
  present metric.(duration) <-> present metric.(endTime).
Proof.
  intros Hin.
  assert (store_inv (metrics (snd (calls (E := E) cs (initial clk n out)))))
    as Hinv.
  { apply calls_invariant; [apply call_store_inv|]. intros k m []. }
  exact (Hinv key metric Hin).
Qed.

Lemma duration_present_iff_endTime_present_witness :
  present (Some 2%Z) <-> present (Some 5%Z).
Proof.
  apply (@duration_present_iff_endTime_present unit
           (fun n => Z.of_nat n) 0 []
           [CallStartMeasure "a"; CallStartMeasure "b"; CallGetAllMetrics;
            CallEndMeasure "a"; CallEndMeasure "c"; CallClearMetrics;
            CallStartMeasure "d"; CallStartMeasure "e"; CallGetMetric "d";
            CallEndMeasure "d"]
           "d" {| name := "d"; startTime := 3; endTime := Some 5%Z;
                  duration := Some 2%Z |}).
  vm_compute. left. reflexivity.
Defined.

(** C6. Two calls of [startMeasure key] with no [endMeasure key] between
    them leave, under [key], the record of the second call: its [startTime]
    is the reading made by the second call, whereas the first call had
    stored the reading made by the first, and it has neither [endTime] nor
    [duration].  The calls [cs] made in between are arbitrary; the statement
    does not even need them to be free of [endMeasure key]. *)
Theorem start_twice_overwrites (E : Type) (w : World) (key : string)
    (cs : list Call) :
  let first := clock w (reads w) in
  let w1 := snd ((startMeasure (E := E) key ;; calls cs) w) in
  let second := clock w1 (reads w1) in
  fst ((startMeasure (E := E) key ;; getMetric key) w) =
    Normal (Some (started key first)) /\
  exists metric,
    fst ((startMeasure (E := E) key ;; calls cs ;; startMeasure key ;;
          getMetric key) w) = Normal (Some metric) /\
    metric.(name) = key /\
    metric.(startTime) = second /\
    metric.(endTime) = None /\
    metric.(duration) = None.
Proof.
  cbv zeta. unfold bind. rewrite startMeasure_run. cbv beta iota. split.
  - unfold getMetric, bind, read_metrics, ret. cbn [fst metrics].
    now rewrite Map_get_set_same.
  - set (w0 := {| metrics := _; clock := _; reads := _; output := _ |}).
    pose proof (calls_normal E cs w0) as Hcs.
    destruct (calls cs w0) as [[[]|e] w1]; cbn [fst] in Hcs; [|discriminate].
    cbn [snd]. rewrite startMeasure_run. cbv beta iota.
    exists (started key (clock w1 (reads w1))).
    unfold getMetric, bind, read_metrics, ret. cbn [fst metrics].
    rewrite Map_get_set_same. repeat split.
Qed.

(** With nothing in between, the second reading is the one that follows the
    first. *)
Example start_twice_once :
  fst ((startMeasure (E := unit) "load" ;; calls [] ;; startMeasure "load" ;;
        getMetric "load")
         (initial (fun n => (3 * Z.of_nat n)%Z) 4 [])) =
  Normal (Some {| name := "load"; startTime := 15; endTime := None;
                  duration := None |}).
Proof. reflexivity. Qed.

(** With a finished measurement of the same key in between, too. *)
Example start_twice_after_end :
  fst ((startMeasure (E := unit) "load" ;;
        calls [CallStartMeasure "save"; CallEndMeasure "load"] ;;
        startMeasure "load" ;; getMetric "load")
         (initial (fun n => (3 * Z.of_nat n)%Z) 4 [])) =
  Normal (Some {| name := "load"; startTime := 21; endTime := None;
                  duration := None |}).
Proof. reflexivity. Qed.

(** C7. When the wrapped callable, run in the world [startMeasure key] has
    left, completes normally with [result] in a world [w2], the wrapper
    completes normally with that same [result], and its final world is the
    one a single [endMeasure key] makes of [w2]: the logger has heard one
    line more than when the callable completed. *)
Theorem measure_success (E A Args : Type) (key : string)
    (originalMethod : Args -> M E A) (args : Args) (w w2 : World) (result : A) :
  originalMethod args (snd (startMeasure (E := E) key w)) = (Normal result, w2) ->
  let run := measure key originalMethod args w in
  fst run = Normal result /\
  snd run = snd (endMeasure (E := E) key w2) /\
  exists entry, output (snd run) = (output w2 ++ [entry])%list.
Proof.
  intros Hcall run. subst run. rewrite measure_run, Hcall. cbn [fst snd].
  repeat split.
  destruct (endMeasure_once E key w2) as (r & entry & _ & Hout). eauto.
Qed.

Lemma measure_success_witness :
  fst (measure (E := string) "op" slow42 tt
         (initial (fun n => (10 * Z.of_nat n)%Z) 0 [])) = Normal 42%Z.
Proof.
  eapply (@measure_success string number unit "op" slow42 tt
            (initial (fun n => (10 * Z.of_nat n)%Z) 0 [])).
  reflexivity.
Defined.

Example measure_success_scenario :
  let run := (measure (E := string) "op" slow42 tt ;; getMetric "op")
               (initial (fun n => (10 * Z.of_nat n)%Z) 0 []) in
  fst run =
    Normal (Some {| name := "op"; startTime := 0; endTime := Some 30%Z;
                    duration := Some 30%Z |}).
Proof. reflexivity. Qed.

(** C8. [monitorPerformance functionName startTime] completes normally for
    every [functionName] and every double [startTime], NaN and the
    infinities included, and leaves the store of the monitor as it was.
    With [elapsed] the double [now - startTime], [now] being the reading of
    the clock, it writes one [console.log] line that carries
    [elapsed.toFixed(2)], and before it one [console.warn] line with the
    same text if and only if [elapsed > 100], a comparison that is strict
    and that no NaN passes. *)
Theorem monitorPerformance_lines (E : Type) (functionName : string)
    (startTime : float64) (w : World) :
  let now := binary_normalize 53 1024 (clock w (reads w)) 0 false in
  let elapsed := SFsub 53 1024 now startTime in
  let slow := SFltb (binary_normalize 53 1024 100 0 false) elapsed in
  let run := monitorPerformance (E := E) functionName startTime w in
  fst run = Normal tt /\
  metrics (snd run) = metrics w /\
  (valid_binary 53 1024 elapsed = true ->
   slow = true <-> exceeds_100 elapsed) /\
  exists text lines,
    is_toFixed2 elapsed text /\
    output (snd run) = (output w ++ lines)%list /\
    filter is_ConsoleLog lines =
      [ConsoleLog ("Performance: " ++ functionName ++ " - " ++ text ++ "ms")] /\
    filter is_ConsoleWarn lines =
      (if slow
       then [ConsoleWarn
               ("Performance warning: " ++ functionName ++ " took " ++ text
                ++ "ms to execute")]
       else []) /\
    (List.length lines =
       List.length (filter is_ConsoleLog lines)
       + List.length (filter is_ConsoleWarn lines))%nat /\
    ((exists message, In (ConsoleWarn message) lines) <-> slow = true).
Proof.
  cbv zeta. unfold monitorPerformance, bind, performance_now.
  cbv beta iota zeta.
  unfold Number_gt, Number_sub, Number_of_Z, Number_of_dyadic.
  unfold console_warn, console_log, emit, ret.
  set (elapsed :=
         SFsub 53 1024 (binary_normalize 53 1024 (clock w (reads w)) 0 false)
           startTime).
  set (slow := SFltb (binary_normalize 53 1024 100 0 false) elapsed).
  assert (valid_binary 53 1024 elapsed = true ->
          slow = true <-> exceeds_100 elapsed) as Hsem
    by (intros Hvalid; now apply slow_iff_exceeds_100).
  pose proof (toFixed2_correct elapsed) as Htext.
  destruct slow.
  - split; [reflexivity|]. split; [reflexivity|]. split; [exact Hsem|].
    exists (toFixed2 elapsed),
      [ConsoleWarn
         ("Performance warning: " ++ functionName ++ " took "
          ++ toFixed2 elapsed ++ "ms to execute");
       ConsoleLog
         ("Performance: " ++ functionName ++ " - " ++ toFixed2 elapsed
          ++ "ms")].
    split; [exact Htext|]. cbn [snd output filter is_ConsoleLog is_ConsoleWarn].
    rewrite <- app_assoc. repeat split; auto.
    eexists. now left.
  - split; [reflexivity|]. split; [reflexivity|]. split; [exact Hsem|].
    exists (toFixed2 elapsed),
      [ConsoleLog
         ("Performance: " ++ functionName ++ " - " ++ toFixed2 elapsed
          ++ "ms")].
    split; [exact Htext|]. cbn [snd output filter is_ConsoleLog is_ConsoleWarn].
    repeat split; auto.
    + intros (message & [Habs|[]]). discriminate Habs.
    + intros Habs. discriminate Habs.
Qed.

Lemma monitorPerformance_lines_witness :
  exceeds_100
    (SFsub 53 1024 (binary_normalize 53 1024 1000 0 false)
       (Number_of_dyadic 1799 (-1))).
Proof.
  destruct (@monitorPerformance_lines unit "op" (Number_of_dyadic 1799 (-1))
              (initial (fun _ => 1000%Z) 0 []))
    as (_ & _ & Hsem & _).
  apply Hsem; vm_compute; reflexivity.
Defined.

(** The two calls of the scenario: started 150 ms ago, started 10 ms ago. *)
Example monitorPerformance_slow :
  output (snd (monitorPerformance (E := unit) "op" (Number_of_Z (1000 - 150))
                 (initial (fun _ => 1000%Z) 0 []))) =
  [ConsoleWarn "Performance warning: op took 150.00ms to execute";
   ConsoleLog "Performance: op - 150.00ms"].
Proof. vm_compute. reflexivity. Qed.

Example monitorPerformance_fast :
  output (snd (monitorPerformance (E := unit) "op" (Number_of_Z (1000 - 10))
                 (initial (fun _ => 1000%Z) 0 []))) =
  [ConsoleLog "Performance: op - 10.00ms"].
Proof. vm_compute. reflexivity. Qed.

(** The comparison is strict: 100 ms does not warn, 100.5 ms does. *)
Example monitorPerformance_threshold :
  output (snd (monitorPerformance (E := unit) "op" (Number_of_Z (1000 - 100))
                 (initial (fun _ => 1000%Z) 0 []))) =
  [ConsoleLog "Performance: op - 100.00ms"].
Proof. vm_compute. reflexivity. Qed.

Example monitorPerformance_just_over :
  output (snd (monitorPerformance (E := unit) "op" (Number_of_dyadic 1799 (-1))
                 (initial (fun _ => 1000%Z) 0 []))) =
  [ConsoleWarn "Performance warning: op took 100.50ms to execute";
   ConsoleLog "Performance: op - 100.50ms"].
Proof. vm_compute. reflexivity. Qed.

(** A [startTime] with a fraction: 999.875, that is 0.125 ms ago. *)
Example monitorPerformance_fraction :
  output (snd (monitorPerformance (E := unit) "op" (Number_of_dyadic 7999 (-3))
                 (initial (fun _ => 1000%Z) 0 []))) =
  [ConsoleLog "Performance: op - 0.13ms"].
Proof. vm_compute. reflexivity. Qed.

(** A [startTime] in the future. *)
Example monitorPerformance_future :
  output (snd (monitorPerformance (E := unit) "op" (Number_of_dyadic 2001 (-1))
                 (initial (fun _ => 1000%Z) 0 []))) =
  [ConsoleLog "Performance: op - -0.50ms"].
Proof. vm_compute. reflexivity. Qed.

(** A [startTime] that is not a time. *)
Example monitorPerformance_NaN :
  output (snd (monitorPerformance (E := unit) "op" S754_nan
                 (initial (fun _ => 1000%Z) 0 []))) =
  [ConsoleLog "Performance: op - NaNms"].
Proof. vm_compute. reflexivity. Qed.

Example monitorPerformance_minus_infinity :
  output (snd (monitorPerformance (E := unit) "op" (S754_infinity true)
                 (initial (fun _ => 1000%Z) 0 []))) =
  [ConsoleWarn "Performance warning: op took Infinityms to execute";
   ConsoleLog "Performance: op - Infinityms"].
Proof. vm_compute. reflexivity. Qed.

Example monitorPerformance_plus_infinity :
  output (snd (monitorPerformance (E := unit) "op" (S754_infinity false)
                 (initial (fun _ => 1000%Z) 0 []))) =
  [ConsoleLog "Performance: op - -Infinityms"].
Proof. vm_compute. reflexivity. Qed.

(** From [10^21] on, [toFixed] prints in exponential notation. *)
Example monitorPerformance_1e21 :
  output (snd (monitorPerformance (E := unit) "op" (Number_of_Z (- 10 ^ 21))
                 (initial (fun _ => 0%Z) 0 []))) =
  [ConsoleWarn "Performance warning: op took 1e+21ms to execute";
   ConsoleLog "Performance: op - 1e+21ms"].
Proof. vm_compute. reflexivity. Qed.

Example monitorPerformance_below_1e21 :
  output (snd (monitorPerformance (E := unit) "op" (Number_of_Z (- 10 ^ 20))
                 (initial (fun _ => 0%Z) 0 []))) =
  [ConsoleWarn
     "Performance warning: op took 100000000000000000000.00ms to execute";
   ConsoleLog "Performance: op - 100000000000000000000.00ms"].
Proof. vm_compute. reflexivity. Qed.

(** [toFixed(2)] on some doubles. *)
Example toFixed2_values :
  map toFixed2
    [Number_of_dyadic 1 (-3); Number_of_dyadic (-1) (-3);
     Number_of_dyadic (-1) (-10);
     SFdiv 53 1024 (Number_of_Z 1005) (Number_of_Z 1000);
     SFdiv 53 1024 (Number_of_Z 999999) (Number_of_Z 1000);
     Number_of_Z 123456789012345680000;
     Number_of_Z (10 ^ 23); Number_of_Z (2 ^ 70);
     S754_finite false (2 ^ 53 - 1) 971] =
  ["0.13"; "-0.13"; "-0.00"; "1.00"; "1000.00";
   "123456789012345683968.00";
   "1e+23"; "1.1805916207174113e+21"; "1.7976931348623157e+308"].
Proof. vm_compute. reflexivity. Qed.

(** C9. For every component, name and props, the function returned by
    [withPerformanceMonitoring] completes normally with the element
    [React.createElement] builds for the wrapped component and these props,
    nothing else, and leaves the store of the monitor as it was; all it
    does beside is to read the clock twice and to hand [logger.debug] one
    line with the [duration] computed from the two readings. *)
Theorem withPerformanceMonitoring_frame (E P ComponentType ReactElement : Type)
    (createElement : ComponentType -> P -> ReactElement)
    (WrappedComponent : ComponentType) (componentName : string) (props : P)
    (w : World) :
  let run :=
    withPerformanceMonitoring (E := E) createElement WrappedComponent
      componentName props w in
  let t0 := clock w (reads w) in
  let t1 := clock w (S (reads w)) in
  fst run = Normal (createElement WrappedComponent props) /\
  metrics (snd run) = metrics w /\
  output (snd run) =
    (output w ++
     [LoggerDebug ("コンポーネントレンダリング: " ++ componentName)
        {| Payload.duration := (t1 - t0)%Z; Payload.startTime := t0;
           Payload.endTime := t1 |}])%list.
Proof.
  cbv zeta. repeat split.
Qed.

Example withPerformanceMonitoring_full_store :
  let run :=
    withPerformanceMonitoring (E := unit)
      (fun (component : string) (props : nat) => (component, props))
      "Chart" "Chart" 3%nat full_world in
  fst run = Normal ("Chart", 3%nat) /\ metrics (snd run) = full_store.
Proof. cbv zeta. split; reflexivity. Qed.

(** C10. When the store holds 1000 records and [key] is one of its keys,
    [startMeasure key] still removes a record whose [startTime] is the
    smallest of all before it overwrites the record of [key].  When the
    record of [key] is not one of smallest [startTime], the record removed
    is another one, it is gone afterwards, every other record stays, and the
    store is left with 999 records. *)
Theorem startMeasure_at_capacity_tracked_key (E : Type) (w : World)
    (key : string) (own : PerformanceMetric) :
  Map_wf (metrics w) ->
  Map_size (metrics w) = 1000%nat ->
  Map_get key (metrics w) = Some own ->
  let w' := snd (startMeasure (E := E) key w) in
  exists victim old,
    Map_get victim (metrics w) = Some old /\
    (forall k m, Map_get k (metrics w) = Some m ->
                 (startTime old <= startTime m)%Z) /\
    metrics w' =
      Map_set key (started key (clock w (reads w)))
        (Map_delete victim (metrics w)) /\
    Map_get key (metrics w') = Some (started key (clock w (reads w))) /\
    ((exists k m, Map_get k (metrics w) = Some m /\
                  (startTime m < startTime own)%Z) ->
     victim <> key /\
     Map_get victim (metrics w') = None /\
     (forall k, k <> victim -> k <> key ->
                Map_get k (metrics w') = Map_get k (metrics w)) /\
     Map_size (metrics w') = 999%nat).
Proof.
  intros Hwf Hsize Hown w'. subst w'.
  rewrite startMeasure_run. cbn [snd metrics].
  unfold make_room. rewrite Hsize.
  change (maxMetrics <=? 1000)%nat with true. cbv iota.
  unfold evict.
  destruct (hd_error (Array_sort byStartTime (Map_entries (metrics w))))
    as [[victim old]|] eqn:Hhd.
  2:{ apply sort_head_None in Hhd. rewrite Hhd in Hsize. discriminate. }
  apply sort_head_oldest in Hhd. destruct (Hhd) as [Hmin _].
  apply oldest_in_In in Hhd. cbn [fst snd] in *.
  assert (Map_get victim (metrics w) = Some old) as Hvictim
    by now apply In_Map_get.
  assert (forall k m, Map_get k (metrics w) = Some m ->
                      (startTime old <= startTime m)%Z) as Hmin'
    by (intros k m Hk; apply (Hmin (k, m)); now apply Map_get_In).
  exists victim, old. repeat split.
  - exact Hvictim.
  - exact Hmin'.
  - apply Map_get_set_same.
  - destruct H as (k & m & Hk & Hlt). intros ->.
    apply Hmin' in Hk. rewrite Hvictim in Hown. injection Hown as ->. lia.
  - destruct H as (k & m & Hk & Hlt).
    assert (victim <> key) as Hne.
    { intros ->. apply Hmin' in Hk. rewrite Hvictim in Hown.
      injection Hown as ->. lia. }
    rewrite Map_get_set_other by exact Hne. now apply Map_get_delete_same.
  - intros k Hk1 Hk2.
    rewrite Map_get_set_other by exact Hk2. now apply Map_get_delete_other.
  - destruct H as (k & m & Hk & Hlt).
    assert (victim <> key) as Hne.
    { intros ->. apply Hmin' in Hk. rewrite Hvictim in Hown.
      injection Hown as ->. lia. }
    assert (Map_get key (Map_delete victim (metrics w)) = Some own) as Hown'
      by (rewrite Map_get_delete_other; auto).
    rewrite Map_size_set_present with (x := own) by exact Hown'.
    pose proof (Map_size_delete _ _ Hvictim). lia.
Qed.

Lemma startMeasure_at_capacity_tracked_key_witness :
  exists victim,
    victim <> "op5" /\
    Map_get victim (metrics (snd (startMeasure (E := unit) "op5" full_world)))
      = None /\
    Map_size (metrics (snd (startMeasure (E := unit) "op5" full_world)))
      = 999%nat.
Proof.
  destruct (@startMeasure_at_capacity_tracked_key unit full_world "op5"
              (started "op5" 12))
    as (victim & old & _ & _ & _ & _ & Hother).
  - apply Map_wfb_sound. vm_compute. reflexivity.
  - vm_compute. reflexivity.
  - vm_compute. reflexivity.
  - destruct Hother as (Hne & Hgone & _ & Hsize).
    + exists "op0", (started "op0" 7). split; [vm_compute; reflexivity|].
      vm_compute. reflexivity.
    + exists victim. repeat split; assumption.
Defined.

(** The eviction path on the full store: [op993] holds the smallest
    [startTime]. *)
Example full_store_fresh_key :
  let ms := metrics (snd (startMeasure (E := unit) "op1000" full_world)) in
  Map_get "op993" full_store = Some (started "op993" 0) /\
  Map_get "op993" ms = None /\
  Map_get "op1000" ms = Some (started "op1000" 6000) /\
  Map_size ms = 1000%nat.
Proof. vm_compute. repeat split. Qed.

Example full_store_tracked_key :
  let ms := metrics (snd (startMeasure (E := unit) "op5" full_world)) in
  Map_get "op993" ms = None /\
  Map_get "op5" ms = Some (started "op5" 6000) /\
  Map_size ms = 999%nat.
Proof. vm_compute. repeat split. Qed.

(** * Further properties of the code *)

(** ** More facts about the containers *)

Section JsMapMoreFacts.
Variable V : Type.
Implicit Types (m before after : Map V) (k key : string) (v : V).

Lemma In_Map_get_some m key v :
  In (key, v) m -> exists v', Map_get key m = Some v'.
Proof.
  induction m as [|[k x] rest IH]; simpl; [tauto|].
  destruct (String.eqb_spec k key) as [->|Hne]; [eauto|].
  intros [Heq|Hin]; [|now apply IH].
  inversion Heq; subst. contradiction.
Qed.

Lemma Map_delete_middle before after key v :
  ~ In key (Map_keys before) ->
  Map_delete key (before ++ (key, v) :: after)%list = (before ++ after)%list.
Proof.
  induction before as [|[k x] rest IH]; simpl; intros Hnotin.
  - now rewrite String.eqb_refl.
  - destruct (String.eqb_spec k key) as [->|Hne].
    + exfalso. apply Hnotin. now left.
    + rewrite IH; [reflexivity|]. intros Hin. apply Hnotin. now right.
Qed.

Lemma Map_wf_app_head before after key v :
  Map_wf (before ++ (key, v) :: after)%list -> ~ In key (Map_keys before).
Proof.
  unfold Map_wf, Map_keys. rewrite map_app. simpl. intros Hwf Hin.
  apply NoDup_remove_2 in Hwf. apply Hwf. apply in_or_app. now left.
Qed.

Lemma Map_size_set_bound m key v :
  (Map_size m <= Map_size (Map_set key v m) <= S (Map_size m))%nat.
Proof.
  destruct (Map_get key m) as [x|] eqn:H.
  - rewrite Map_size_set_present with (x := x) by assumption. lia.
  - rewrite Map_size_set_fresh by assumption. lia.
Qed.

Lemma Map_keys_set_fresh m key v :
  Map_get key m = None ->
  Map_keys (Map_set key v m) = (Map_keys m ++ [key])%list.
Proof.
  intros H. rewrite Map_set_fresh by assumption.
  unfold Map_keys. now rewrite map_app.
Qed.

Lemma Map_values_In m v :
  In v (Map_values m) <-> exists key, In (key, v) m.
Proof.
  unfold Map_values. rewrite in_map_iff. split.
  - intros ([k x] & Heq & Hin). simpl in Heq. subst x. eauto.
  - intros (k & Hin). exists (k, v). auto.
Qed.
End JsMapMoreFacts.

(** What [clearOldMetrics] does to a store that is not empty: the entries
    are split around the one it deletes. *)
Lemma evict_first_oldest (ms : Map PerformanceMetric) :
  Map_wf ms -> ms <> [] ->
  exists before victim old after,
    ms = (before ++ (victim, old) :: after)%list /\
    (forall x, In x before -> (startTime old < startTime (snd x))%Z) /\
    (forall x, In x after -> (startTime old <= startTime (snd x))%Z) /\
    evict ms = (before ++ after)%list.
Proof.
  intros Hwf Hne. unfold evict.
  destruct (hd_error (Array_sort byStartTime (Map_entries ms)))
    as [[victim old]|] eqn:Hhd.
  2:{ apply sort_head_None in Hhd. contradiction. }
  apply sort_head_oldest in Hhd.
  destruct Hhd as [Hmin (before & after & Hms & Hbefore)].
  cbn [fst snd] in *.
  exists before, victim, old, after. repeat split.
  - exact Hms.
  - exact Hbefore.
  - intros x Hx. apply Hmin. rewrite Hms. apply in_or_app. right. now right.
  - rewrite Hms. apply Map_delete_middle.
    rewrite Hms in Hwf. now apply Map_wf_app_head in Hwf.
Qed.

Lemma make_room_below (ms : Map PerformanceMetric) :
  (Map_size ms < maxMetrics)%nat -> make_room ms = ms.
Proof.
  intros Hlt. unfold make_room.
  destruct (Nat.leb_spec maxMetrics (Map_size ms)); [lia | reflexivity].
Qed.

Lemma make_room_full (ms : Map PerformanceMetric) :
  (maxMetrics <= Map_size ms)%nat -> make_room ms = evict ms /\ ms <> [].
Proof.
  intros Hle. unfold make_room.
  destruct (Nat.leb_spec maxMetrics (Map_size ms)); [|lia].
  split; [reflexivity|]. intros ->.
  assert (maxMetrics = 1000%nat) as Hmax by reflexivity.
  cbn [Map_size List.length] in Hle. lia.
Qed.

(** X6. On a store that is not empty, [clearOldMetrics] deletes exactly one
    entry: the first one, in insertion order, among those of smallest
    [startTime].  Every entry inserted before it is strictly younger, every
    entry inserted after it is at least as young, and the others keep their
    order. *)
Theorem clearOldMetrics_removes_first_oldest (E : Type) (w : World) :
  Map_wf (metrics w) -> metrics w <> [] ->
  exists before victim old after,
    metrics w = (before ++ (victim, old) :: after)%list /\
    (forall x, In x before -> (startTime old < startTime (snd x))%Z) /\
    (forall x, In x after -> (startTime old <= startTime (snd x))%Z) /\
    metrics (snd (clearOldMetrics (E := E) w)) = (before ++ after)%list /\
    fst (clearOldMetrics (E := E) w) = Normal tt.
Proof.
  intros Hwf Hne. rewrite clearOldMetrics_run. cbn [fst snd metrics].
  destruct (@evict_first_oldest (metrics w) Hwf Hne)
    as (before & victim & old & after & Hms & Hb & Ha & Hev).
  exists before, victim, old, after. repeat split; assumption.
Qed.

Lemma clearOldMetrics_removes_first_oldest_witness :
  exists before victim old after,
    tied_store = (before ++ (victim, old) :: after)%list /\
    metrics (snd (clearOldMetrics (E := unit) tied_world)) =
      (before ++ after)%list.
Proof.
  destruct (@clearOldMetrics_removes_first_oldest unit tied_world)
    as (before & victim & old & after & Hsplit & _ & _ & Hleft & _).
  - apply Map_wfb_sound. vm_compute. reflexivity.
  - discriminate.
  - exists before, victim, old, after. split; assumption.
Defined.

(** On the store with a tie, [b] goes and [c], as old, stays. *)
Example clearOldMetrics_tie :
  metrics (snd (clearOldMetrics (E := unit) tied_world)) =
  [("a", started "a" 9); ("c", started "c" 4); ("d", started "d" 6)].
Proof. reflexivity. Qed.

(** ** Capacity and eviction *)

Lemma evict_deletes_oldest (ms : Map PerformanceMetric) :
  Map_wf ms -> ms <> [] ->
  exists victim old,
    Map_get victim ms = Some old /\
    (forall k m, Map_get k ms = Some m -> (startTime old <= startTime m)%Z) /\
    evict ms = Map_delete victim ms.
Proof.
  intros Hwf Hne. unfold evict.
  destruct (hd_error (Array_sort byStartTime (Map_entries ms)))
    as [[victim old]|] eqn:Hhd.
  2:{ apply sort_head_None in Hhd. contradiction. }
  apply sort_head_oldest in Hhd. destruct (Hhd) as [Hmin _].
  apply oldest_in_In in Hhd. cbn [fst snd] in *.
  exists victim, old. repeat split.
  - now apply In_Map_get.
  - intros k m Hk. apply (Hmin (k, m)). now apply Map_get_In.
Qed.

Lemma Map_size_evict (ms : Map PerformanceMetric) :
  ms <> [] -> Map_size ms = S (Map_size (evict ms)).
Proof.
  intros Hne. unfold evict.
  destruct (hd_error (Array_sort byStartTime (Map_entries ms)))
    as [[victim old]|] eqn:Hhd.
  2:{ apply sort_head_None in Hhd. contradiction. }
  apply sort_head_oldest, oldest_in_In in Hhd. cbn [fst].
  destruct (@In_Map_get_some _ ms victim old Hhd) as [v' Hget].
  exact (@Map_size_delete _ ms victim v' Hget).
Qed.

Lemma Map_size_startMeasure_bound (ms : Map PerformanceMetric) key v :
  (Map_size ms <= maxMetrics)%nat ->
  (Map_size (Map_set key v (make_room ms)) <= maxMetrics)%nat.
Proof.
  intros Hle. pose proof (Map_size_set_bound (make_room ms) key v) as Hset.
  destruct (Nat.lt_ge_cases (Map_size ms) maxMetrics) as [Hlt|Hge].
  - rewrite make_room_below in * by exact Hlt. lia.
  - destruct (@make_room_full ms Hge) as [Hroom Hne].
    rewrite Hroom in *. pose proof (@Map_size_evict ms Hne). lia.
Qed.

(** X1. The bound on the store is an invariant: from a store of at most
    1000 records, no sequence of calls of the monitor builds a store of more
    than 1000 records. *)
Theorem store_never_exceeds_capacity (E : Type) (w : World) (cs : list Call) :
  (Map_size (metrics w) <= 1000)%nat ->
  (Map_size (metrics (snd (calls (E := E) cs w))) <= 1000)%nat.
Proof.
  change 1000%nat with maxMetrics.
  apply (@calls_invariant E (fun ms => (Map_size ms <= maxMetrics)%nat)).
  clear w cs. intros c w Hle.
  pose proof (call_metrics E c w) as Hc. cbv zeta in Hc.
  destruct c as [key|key|key| |].
  - rewrite Hc. now apply Map_size_startMeasure_bound.
  - destruct (Map_get key (metrics w)) as [old|] eqn:Hget; rewrite Hc;
      [|exact Hle].
    now rewrite Map_size_set_present with (x := old).
  - now rewrite Hc.
  - now rewrite Hc.
  - rewrite Hc. cbn. lia.
Qed.

Lemma store_never_exceeds_capacity_witness :
  (Map_size
     (metrics
        (snd (calls (E := unit)
                [CallStartMeasure "op1000"; CallEndMeasure "op3";
                 CallStartMeasure "op1001"; CallStartMeasure "op3"]
                full_world))) <= 1000)%nat.
Proof.
  apply (@store_never_exceeds_capacity unit full_world).
  apply Nat.leb_le. vm_compute. reflexivity.
Defined.

(** X5. Below the capacity, [startMeasure key] deletes nothing: the store
    it leaves is the one it found with [key] set to the new record.  The
    records of the other keys are untouched; a new key is appended to the
    insertion order and the store grows by one, a key already held keeps its
    place and the store keeps its size. *)
Theorem startMeasure_below_capacity (E : Type) (w : World) (key : string) :
  (Map_size (metrics w) < 1000)%nat ->
  let fresh := started key (clock w (reads w)) in
  let w' := snd (startMeasure (E := E) key w) in
  metrics w' = Map_set key fresh (metrics w) /\
  (forall k, k <> key -> Map_get k (metrics w') = Map_get k (metrics w)) /\
  (Map_get key (metrics w) = None ->
     metrics w' = (metrics w ++ [(key, fresh)])%list /\
     Map_size (metrics w') = S (Map_size (metrics w))) /\
  (forall old, Map_get key (metrics w) = Some old ->
     Map_keys (metrics w') = Map_keys (metrics w) /\
     Map_size (metrics w') = Map_size (metrics w)).
Proof.
  intros Hlt fresh w'. subst fresh w'.
  rewrite startMeasure_run. cbn [snd metrics].
  rewrite make_room_below by exact Hlt.
  split; [reflexivity|]. split; [|split].
  - intros k Hk. now apply Map_get_set_other.
  - intros Hnone. split.
    + now apply Map_set_fresh.
    + now apply Map_size_set_fresh.
  - intros old Hold. split.
    + now apply Map_keys_set_present with (x := old).
    + now apply Map_size_set_present with (x := old).
Qed.

Lemma startMeasure_below_capacity_witness :
  metrics (snd (startMeasure (E := unit) "b" tied_world)) =
  Map_set "b" (started "b" 14) tied_store.
Proof.
  apply (@startMeasure_below_capacity unit tied_world "b").
  apply Nat.ltb_lt. vm_compute. reflexivity.
Defined.

(** X7. At capacity, when the record of [key] is itself the one oldest
    record (strictly older than every other), [startMeasure key] deletes
    that record and no other, and creates the new record of [key] at the end
    of the insertion order: the store keeps its 1000 records and every other
    key keeps its record. *)
Theorem startMeasure_at_capacity_own_record_oldest (E : Type) (w : World)
    (key : string) (own : PerformanceMetric) :
  Map_wf (metrics w) ->
  Map_size (metrics w) = 1000%nat ->
  Map_get key (metrics w) = Some own ->
  (forall k m, k <> key -> Map_get k (metrics w) = Some m ->
               (startTime own < startTime m)%Z) ->
  let w' := snd (startMeasure (E := E) key w) in
  metrics w' =
    (Map_delete key (metrics w)
     ++ [(key, started key (clock w (reads w)))])%list /\
  (forall k, k <> key -> Map_get k (metrics w') = Map_get k (metrics w)) /\
  Map_size (metrics w') = 1000%nat.
Proof.
  intros Hwf Hsize Hown Holdest w'. subst w'.
  rewrite startMeasure_run. cbn [snd metrics].
  assert (maxMetrics <= Map_size (metrics w))%nat as Hfull
    by (rewrite Hsize; apply Nat.le_refl).
  destruct (@make_room_full (metrics w) Hfull) as [Hroom Hne]. rewrite Hroom.
  destruct (@evict_deletes_oldest (metrics w) Hwf Hne)
    as (victim & old & Hvictim & Hmin & ->).
  assert (victim = key) as ->.
  { destruct (String.eqb_spec victim key) as [Heq|Hneq]; [exact Heq|].
    specialize (Holdest victim old Hneq Hvictim).
    specialize (Hmin key own Hown). lia. }
  assert (Map_get key (Map_delete key (metrics w)) = None) as Hgone
    by now apply Map_get_delete_same.
  repeat split.
  - now apply Map_set_fresh.
  - intros k Hk. rewrite Map_get_set_other by exact Hk.
    now apply Map_get_delete_other.
  - rewrite Map_size_set_fresh by exact Hgone.
    pose proof (@Map_size_delete _ (metrics w) key own Hown). lia.
Qed.

Lemma startMeasure_at_capacity_own_record_oldest_witness :
  Map_keys (metrics (snd (startMeasure (E := unit) "op0" aged_world))) =
  (Map_keys (Map_delete "op0" aged_store) ++ ["op0"])%list.
Proof.
  destruct (@startMeasure_at_capacity_own_record_oldest unit aged_world "op0"
              (started "op0" 0)) as (Hstore & _ & _).
  - apply Map_wfb_sound. vm_compute. reflexivity.
  - vm_compute. reflexivity.
  - vm_compute. reflexivity.
  - intros k m Hne Hget. apply Map_get_In in Hget.
    assert (forallb
              (fun e : string * PerformanceMetric =>
                 String.eqb (fst e) "op0" || (0 <? startTime (snd e))%Z)
              aged_store = true) as Hall by (vm_compute; reflexivity).
    rewrite forallb_forall in Hall. specialize (Hall (k, m) Hget).
    cbn [fst snd] in Hall. apply orb_true_iff in Hall as [Heq|Hlt].
    + apply String.eqb_eq in Heq. contradiction.
    + cbn [started startTime]. now apply Z.ltb_lt.
  - rewrite Hstore. unfold Map_keys. rewrite map_app. reflexivity.
Defined.

(** X14. At capacity, starting a key the store does not hold loses a
    measurement that the store did hold: for the record deleted to make
    room, whether it was finished or still running, a later
    [endMeasure] finds nothing, returns [undefined] and leaves the warning
    with the logger. *)
Theorem endMeasure_after_eviction_misses (E : Type) (w : World) (key : string) :
  Map_wf (metrics w) ->
  Map_size (metrics w) = 1000%nat ->
  Map_get key (metrics w) = None ->
  exists victim old,
    Map_get victim (metrics w) = Some old /\
    fst ((startMeasure (E := E) key ;; endMeasure victim) w) = Normal None /\
    output (snd ((startMeasure (E := E) key ;; endMeasure victim) w)) =
      (output w ++
       [LoggerWarn ("計測 " ++ dquote ++ victim ++ dquote
                    ++ " が見つかりません")])%list.
Proof.
  intros Hwf Hsize Hfresh.
  assert (maxMetrics <= Map_size (metrics w))%nat as Hfull
    by (rewrite Hsize; apply Nat.le_refl).
  destruct (@make_room_full (metrics w) Hfull) as [Hroom Hne].
  destruct (@evict_deletes_oldest (metrics w) Hwf Hne)
    as (victim & old & Hvictim & _ & Hevict).
  exists victim, old. split; [exact Hvictim|].
  unfold bind. rewrite startMeasure_run, Hroom, Hevict.
  assert (victim <> key) as Hneq by congruence.
  rewrite endMeasure_missing.
  - split; reflexivity.
  - cbn [metrics]. rewrite Map_get_set_other by exact Hneq.
    now apply Map_get_delete_same.
Qed.

Lemma endMeasure_after_eviction_misses_witness :
  exists victim,
    fst ((startMeasure (E := unit) "op1000" ;; endMeasure victim) full_world)
    = Normal None.
Proof.
  destruct (@endMeasure_after_eviction_misses unit full_world "op1000")
    as (victim & old & _ & Hmiss & _).
  - apply Map_wfb_sound. vm_compute. reflexivity.
  - vm_compute. reflexivity.
  - vm_compute. reflexivity.
  - exists victim. exact Hmiss.
Defined.

(** X15. As long as there is room, nothing is lost: starting, one after
    the other, distinct keys the store does not hold, at most as many as
    bring it to 1000 records, appends them in that order, gives the [i]-th
    of them the [i]-th reading, and leaves the records held before as they
    were. *)
Theorem startMeasure_distinct_keys_retained (E : Type) (ks : list string)
    (w : World) :
  NoDup ks ->
  (forall k, In k ks -> Map_get k (metrics w) = None) ->
  (Map_size (metrics w) + List.length ks <= 1000)%nat ->
  let w' := snd (calls (E := E) (map CallStartMeasure ks) w) in
  Map_keys (metrics w') = (Map_keys (metrics w) ++ ks)%list /\
  (forall k, ~ In k ks -> Map_get k (metrics w') = Map_get k (metrics w)) /\
  (forall i k, nth_error ks i = Some k ->
     Map_get k (metrics w') = Some (started k (clock w (reads w + i)))).
Proof.
  cbv zeta. revert w.
  induction ks as [|k0 rest IH]; intros w Hnodup Hfresh Hroom.
  - cbn [map calls ret snd]. rewrite app_nil_r. repeat split.
    intros [|i] k Hnth; discriminate Hnth.
  - inversion Hnodup as [|? ? Hnotin Hnodup']; subst.
    cbn [map calls call]. unfold bind. rewrite startMeasure_run.
    set (w1 := {| metrics := _; clock := _; reads := _; output := _ |}).
    assert (Map_size (metrics w) < maxMetrics)%nat as Hlt
      by (change maxMetrics with 1000%nat; cbn [List.length] in Hroom; lia).
    assert (Map_get k0 (metrics w) = None) as Hk0 by (apply Hfresh; now left).
    assert (metrics w1 =
            Map_set k0 (started k0 (clock w (reads w))) (metrics w)) as Hw1
      by (subst w1; cbn [metrics]; now rewrite make_room_below).
    destruct (IH w1 Hnodup') as (Hkeys & Hold & Hnew).
    + intros k Hk. rewrite Hw1, Map_get_set_other; [apply Hfresh; now right|].
      intros ->. contradiction.
    + rewrite Hw1, Map_size_set_fresh by exact Hk0.
      cbn [List.length] in Hroom. lia.
    + repeat split.
      * rewrite Hkeys, Hw1, Map_keys_set_fresh by exact Hk0.
        now rewrite <- app_assoc.
      * intros k Hk. rewrite Hold by (intros Hin; apply Hk; now right).
        rewrite Hw1. apply Map_get_set_other. intros ->. apply Hk. now left.
      * intros [|i] k Hnth.
        -- injection Hnth as <-. rewrite Hold by exact Hnotin.
           rewrite Hw1, Map_get_set_same. now rewrite Nat.add_0_r.
        -- rewrite (Hnew i k Hnth). subst w1. cbn [clock reads].
           now rewrite Nat.add_succ_r.
Qed.

Lemma startMeasure_distinct_keys_retained_witness :
  Map_keys
    (metrics (snd (calls (E := unit)
                     (map CallStartMeasure ["e"; "f"; "g"]) tied_world))) =
  ["a"; "b"; "c"; "d"; "e"; "f"; "g"].
Proof.
  apply (@startMeasure_distinct_keys_retained unit ["e"; "f"; "g"] tied_world).
  - repeat constructor; simpl; intuition discriminate.
  - intros k [<-|[<-|[<-|[]]]]; reflexivity.
  - apply Nat.leb_le. vm_compute. reflexivity.
Defined.

(** ** What every record in the store looks like *)

Section WorldInvariants.
Variable E : Type.

(** The clock and the count of its readings across a call. *)
Lemma call_clock (c : Call) (w : World) :
  clock (snd (call (E := E) c w)) = clock w /\
  (reads w <= reads (snd (call (E := E) c w)))%nat /\
  match c with
  | CallStartMeasure _ => reads (snd (call (E := E) c w)) = S (reads w)
  | CallEndMeasure key =>
      Map_get key (metrics w) <> None ->
      reads (snd (call (E := E) c w)) = S (reads w)
  | _ => True
  end.
Proof.
  destruct c as [key|key|key| |]; cbn [call].
  - rewrite startMeasure_run. cbn. auto.
  - destruct (Map_get key (metrics w)) as [metric|] eqn:Hget; unfold bind.
    + rewrite (endMeasure_tracked E _ _ Hget). cbn. auto.
    + rewrite (endMeasure_missing E _ _ Hget). cbn. repeat split; auto.
      intros Habs. now contradiction Habs.
  - cbn. auto.
  - cbn. auto.
  - cbn. auto.
Qed.

Lemma record_inv_later (w w' : World) key metric :
  clock w' = clock w -> (reads w <= reads w')%nat ->
  record_inv w key metric -> record_inv w' key metric.
Proof.
  intros Hclock Hreads [Hname (i & Hi & Hstart & Hend)].
  split; [exact Hname|]. exists i. rewrite Hclock.
  split; [lia|]. split; [exact Hstart|].
  destruct (endTime metric) as [e|], (duration metric) as [d|]; auto.
  destruct Hend as [Hd (j & Hj & He)]. split; [exact Hd|].
  exists j. split; [lia | exact He].
Qed.

Lemma call_world_inv (c : Call) (w : World) :
  world_inv w -> world_inv (snd (call (E := E) c w)).
Proof.
  intros Hinv.
  pose proof (call_metrics E c w) as Hc. cbv zeta in Hc.
  destruct (call_clock c w) as (Hclock & Hreads & Hstep).
  intros k metric Hin.
  destruct c as [key|key|key| |].
  - rewrite Hc in Hin. apply In_Map_set in Hin as [[= -> ->]|Hin].
    + split; [reflexivity|]. exists (reads w). rewrite Hstep, Hclock.
      cbn [started startTime endTime duration]. auto.
    + apply In_make_room in Hin.
      eapply record_inv_later; [exact Hclock | exact Hreads | now apply Hinv].
  - destruct (Map_get key (metrics w)) as [old|] eqn:Hget; rewrite Hc in Hin.
    + apply In_Map_set in Hin as [[= -> ->]|Hin].
      * apply Map_get_In in Hget.
        destruct (Hinv _ _ Hget) as [Hname (i & Hi & Hstart & _)].
        split; [exact Hname|]. exists i.
        rewrite Hstep, Hclock by discriminate.
        cbn [startTime endTime duration].
        split; [lia|]. split; [exact Hstart|]. split; [reflexivity|].
        exists (reads w). split; [lia | reflexivity].
      * eapply record_inv_later; [exact Hclock | exact Hreads | now apply Hinv].
    + eapply record_inv_later; [exact Hclock | exact Hreads | now apply Hinv].
  - rewrite Hc in Hin.
    eapply record_inv_later; [exact Hclock | exact Hreads | now apply Hinv].
  - rewrite Hc in Hin.
    eapply record_inv_later; [exact Hclock | exact Hreads | now apply Hinv].
  - rewrite Hc in Hin. destruct Hin.
Qed.

Lemma calls_world_invariant (I : World -> Prop) :
  (forall c w, I w -> I (snd (call (E := E) c w))) ->
  forall cs w, I w -> I (snd (calls (E := E) cs w)).
Proof.
  intros Hstep cs. induction cs as [|c rest IH]; intros w Hw; [exact Hw|].
  cbn [calls]. unfold bind. specialize (Hstep c w Hw).
  destruct (call c w) as [[[]|e] w1]; cbn [snd] in *; auto.
Qed.

Lemma calls_world_inv clk n out cs :
  let w := snd (calls (E := E) cs (initial clk n out)) in
  clock w = clk /\ world_inv w /\ Map_wf (metrics w).
Proof.
  apply (calls_world_invariant
           (fun w => clock w = clk /\ world_inv w /\ Map_wf (metrics w))).
  - intros c w (Hclock & Hinv & Hwf). split; [|split].
    + rewrite <- Hclock. apply call_clock.
    + now apply call_world_inv.
    + now apply call_wf.
  - split; [reflexivity|]. split; [intros k m []|constructor].
Qed.
End WorldInvariants.

(** X2. In every store built from the empty one by calls of the monitor,
    each record is held under its own [name]. *)
Theorem record_held_under_its_name (E : Type) (clk : nat -> number) (n : nat)
    (out : list LogEntry) (cs : list Call) (key : string)
    (metric : PerformanceMetric) :
  In (key, metric)
     (Map_entries (metrics (snd (calls (E := E) cs (initial clk n out))))) ->
  metric.(name) = key.
Proof.
  intros Hin. destruct (calls_world_inv E clk n out cs) as (_ & Hinv & _).
  now destruct (Hinv key metric Hin).
Qed.

Lemma record_held_under_its_name_witness :
  name {| name := "d"; startTime := 3; endTime := Some 5%Z;
          duration := Some 2%Z |} = "d".
Proof.
  apply (@record_held_under_its_name unit (fun n => Z.of_nat n) 0 []
           [CallStartMeasure "a"; CallStartMeasure "b"; CallGetAllMetrics;
            CallEndMeasure "a"; CallEndMeasure "c"; CallClearMetrics;
            CallStartMeasure "d"; CallStartMeasure "e"; CallGetMetric "d";
            CallEndMeasure "d"] "d").
  vm_compute. left. reflexivity.
Defined.



(** X4. When the clock is monotone, no store built from the empty one by
    calls of the monitor holds a negative [duration] or an [endTime] before
    its [startTime]. *)
Theorem durations_not_negative (E : Type) (clk : nat -> number) (n : nat)
    (out : list LogEntry) (cs : list Call) (key : string)
    (metric : PerformanceMetric) :
  monotone clk ->
  In (key, metric)
     (Map_entries (metrics (snd (calls (E := E) cs (initial clk n out))))) ->
  (forall e, metric.(endTime) = Some e -> (metric.(startTime) <= e)%Z) /\
  (forall d, metric.(duration) = Some d -> (0 <= d)%Z).
Proof.
  intros Hmono Hin.
  destruct (calls_world_inv E clk n out cs) as (Hclock & Hinv & _).
  destruct (Hinv key metric Hin) as [_ (i & _ & Hstart & Hclosed)].
  rewrite Hclock in *.
  destruct (endTime metric) as [e|], (duration metric) as [d|];
    try contradiction.
  - destruct Hclosed as [-> (j & Hj & ->)].
    assert (clk i <= clk j)%Z as Hle by (apply Hmono; lia).
    split.
    + intros e' [= <-]. lia.
    + intros d' [= <-]. lia.
  - split; intros ? Habs; discriminate Habs.
Qed.

Lemma durations_not_negative_witness :
  (forall e, Some 5%Z = Some e -> (3 <= e)%Z) /\
  (forall d, Some 2%Z = Some d -> (0 <= d)%Z).
Proof.
  apply (@durations_not_negative unit (fun n => Z.of_nat n) 0 []
           [CallStartMeasure "a"; CallStartMeasure "b"; CallGetAllMetrics;
            CallEndMeasure "a"; CallEndMeasure "c"; CallClearMetrics;
            CallStartMeasure "d"; CallStartMeasure "e"; CallGetMetric "d";
            CallEndMeasure "d"]
           "d" {| name := "d"; startTime := 3; endTime := Some 5%Z;
                  duration := Some 2%Z |}).
  - intros i j Hij. lia.
  - vm_compute. left. reflexivity.
Defined.

(** X9. On every store built from the empty one by calls of the monitor,
    [getAllMetrics] and [getMetric] agree: the array has one record for each
    key of the store, in insertion order, and a record is in the array
    exactly when [getMetric] returns it for its [name]. *)
Theorem getAllMetrics_agrees_with_getMetric (E : Type) (clk : nat -> number)
    (n : nat) (out : list LogEntry) (cs : list Call) :
  let w := snd (calls (E := E) cs (initial clk n out)) in
  exists all,
    getAllMetrics (E := E) w = (Normal all, w) /\
    map name all = Map_keys (metrics w) /\
    List.length all = Map_size (metrics w) /\
    forall metric,
      In metric all <->
      fst (getMetric (E := E) metric.(name) w) = Normal (Some metric).
Proof.
  intros w.
  destruct (calls_world_inv E clk n out cs) as (_ & Hinv & Hwf).
  fold w in Hinv, Hwf.
  exists (Map_values (metrics w)). split; [reflexivity|].
  assert (forall key metric, In (key, metric) (metrics w) -> name metric = key)
    as Hname by (intros key metric Hin; now destruct (Hinv key metric Hin)).
  split; [|split].
  - unfold Map_values, Map_keys. rewrite map_map.
    apply map_ext_in. intros [k m] Hin. cbn [fst snd]. now apply Hname.
  - unfold Map_values, Map_size. apply length_map.
  - intros metric. unfold getMetric, bind, read_metrics, ret. cbn [fst].
    rewrite Map_values_In. split.
    + intros (key & Hin). rewrite (Hname _ _ Hin).
      f_equal. f_equal. now apply In_Map_get.
    + intros [= Hget]. exists (name metric). now apply Map_get_In.
Qed.

(** ** Reading, closing and clearing *)

(** X8. [clearMetrics] forgets every measurement and nothing else: the
    clock and the logs are as before, [getAllMetrics] then returns an empty
    array, [getMetric] and [endMeasure] find no key, and the next
    [startMeasure] opens a store of one record. *)
Theorem clearMetrics_forgets (E : Type) (w : World) :
  clearMetrics (E := E) w =
    (Normal tt,
     {| metrics := []; clock := clock w; reads := reads w;
        output := output w |}) /\
  fst ((clearMetrics (E := E) ;; getAllMetrics) w) = Normal [] /\
  (forall key,
     fst ((clearMetrics (E := E) ;; getMetric key) w) = Normal None) /\
  (forall key,
     fst ((clearMetrics (E := E) ;; endMeasure key) w) = Normal None) /\
  (forall key,
     fst ((clearMetrics (E := E) ;; startMeasure key ;; getAllMetrics) w) =
     Normal [started key (clock w (reads w))]).
Proof.
  split; [reflexivity|]. split; [reflexivity|]. split; [reflexivity|].
  split.
  - intros key. unfold bind. cbn [clearMetrics]. reflexivity.
  - intros key. unfold bind at 1 2.
    change (clearMetrics (E := E) w) with
      (@Normal E unit tt,
       {| metrics := []; clock := clock w; reads := reads w;
          output := output w |}).
    cbv beta iota. rewrite startMeasure_run. reflexivity.
Qed.





(** ** What the logger hears *)

Lemma call_output (E : Type) (c : Call) (w : World) :
  exists lines,
    output (snd (call (E := E) c w)) = (output w ++ lines)%list /\
    List.length lines = (if is_CallEndMeasure c then 1 else 0)%nat /\
    forallb is_logger_entry lines = true.
Proof.
  destruct c as [key|key|key| |]; cbn [call is_CallEndMeasure].
  - exists []. rewrite startMeasure_run, app_nil_r. auto.
  - destruct (Map_get key (metrics w)) as [metric|] eqn:Hget; unfold bind.
    + rewrite (endMeasure_tracked E _ _ Hget). cbn [snd output].
      eexists [_]. repeat split.
    + rewrite (endMeasure_missing E _ _ Hget). cbn [snd output].
      eexists [_]. repeat split.
  - exists []. rewrite app_nil_r. auto.
  - exists []. rewrite app_nil_r. auto.
  - exists []. cbn. rewrite app_nil_r. auto.
Qed.

(** X13. The monitor speaks through [endMeasure] only: over any sequence
    of calls, what was logged before stays, the lines added are as many as
    the calls of [endMeasure] in the sequence, and all of them go to the
    logger, none to the console. *)
Theorem one_log_line_per_endMeasure (E : Type) (cs : list Call) (w : World) :
  exists lines,
    output (snd (calls (E := E) cs w)) = (output w ++ lines)%list /\
    List.length lines = List.length (filter is_CallEndMeasure cs) /\
    forallb is_logger_entry lines = true.
Proof.
  revert w. induction cs as [|c rest IH]; intros w.
  - exists []. cbn. now rewrite app_nil_r.
  - cbn [calls]. unfold bind.
    destruct (call_output E c w) as (l1 & Hout1 & Hlen1 & Hlog1).
    pose proof (call_normal E c w) as Hnormal.
    destruct (call c w) as [[[]|e] w1]; cbn [fst snd] in *; [|discriminate].
    destruct (IH w1) as (l2 & Hout2 & Hlen2 & Hlog2).
    exists (l1 ++ l2)%list. repeat split.
    + now rewrite Hout2, Hout1, app_assoc.
    + rewrite length_app, Hlen1, Hlen2. cbn [filter].
      destruct (is_CallEndMeasure c); reflexivity.
    + rewrite forallb_app, Hlog1, Hlog2. reflexivity.
Qed.

(** ** The call-wrapper, once more *)



(** X16. Wrappers of the same name do not nest.  When a method wrapped by
    [measure key] is wrapped by [measure key] again, the inner wrapper
    starts the record anew and the outer wrapper closes that same record a
    second time: provided the method itself leaves the record and the clock
    in place, the record that remains starts at the second reading, the
    one of the inner wrapper, not at the first, the one of the outer
    wrapper, and ends at the reading of the outer one. *)
Theorem measure_nested_same_key (E A Args : Type) (key : string)
    (originalMethod : Args -> M E A) (args : Args) (w w3 : World)
    (outcome : Completion E A) :
  let inner_start := clock w (S (reads w)) in
  originalMethod args
    (snd (startMeasure (E := E) key (snd (startMeasure (E := E) key w)))) =
    (outcome, w3) ->
  Map_get key (metrics w3) = Some (started key inner_start) ->
  clock w3 = clock w ->
  let run := measure key (measure key originalMethod) args w in
  fst run = outcome /\
  fst (getMetric (E := E) key (snd run)) =
    Normal (Some {| name := key; startTime := inner_start;
                    endTime := Some (clock w (S (reads w3)));
                    duration :=
                      Some (clock w (S (reads w3)) - inner_start)%Z |}).
Proof.
  intros inner_start Hcall Hget Hclock run.
  subst inner_start run.
  rewrite measure_run, measure_run, Hcall. cbn [fst snd].
  split; [reflexivity|].
  rewrite (endMeasure_tracked E _ _ Hget). cbn [snd].
  set (w4 := {| metrics := _; clock := _; reads := _; output := _ |}).
  assert (Map_get key (metrics w4) =
          Some (ended (started key (clock w (S (reads w))))
                  (clock w3 (reads w3)))) as Hget4
    by (subst w4; cbn [metrics]; apply Map_get_set_same).
  rewrite (endMeasure_tracked E _ _ Hget4).
  unfold getMetric, bind, read_metrics, ret. cbn [fst snd metrics].
  rewrite Map_get_set_same. subst w4. cbn [clock reads].
  rewrite Hclock. reflexivity.
Qed.

Lemma measure_nested_same_key_witness :
  fst (getMetric (E := string) "op"
         (snd (measure (E := string) "op" (measure "op" slow42) tt
                 (initial (fun n => (10 * Z.of_nat n)%Z) 0 [])))) =
  Normal (Some {| name := "op"; startTime := 10; endTime := Some 50%Z;
                  duration := Some 40%Z |}).
Proof.
  destruct (@measure_nested_same_key string number unit "op" slow42 tt
              (initial (fun n => (10 * Z.of_nat n)%Z) 0 [])
              (snd (slow42 (E := string) tt
                      (snd (startMeasure (E := string) "op"
                              (snd (startMeasure (E := string) "op"
                                      (initial (fun n => (10 * Z.of_nat n)%Z)
                                         0 [])))))))
              (Normal 42%Z) eq_refl eq_refl eq_refl)
    as (_ & Hrecord).
  exact Hrecord.
Defined.
